(** * QCFractal: the [qcfractal-server] command line and the DQM server shell

    A shallow embedding of

    - [src/qcfractal/cli/qcfractal_server.py]: [parse_args] (the loop that
      moves parsed options into groups), [server_init], [server_config] and
      [main];
    - [src/dqm_server/server.py]: [DQMServer.__init__], [start] and [stop].

    Python dictionaries are finite maps with string keys, the file system
    and the standard output are an explicit world threaded through a small
    state-and-halt monad, [sys.exit] and raised exceptions are the two ways
    a computation halts. *)

From Stdlib Require Import ZArith String Ascii List DecimalString.
From stdpp Require Import base option gmap strings list fin_maps pretty.

Local Open Scope string_scope.
Local Open Scope Z_scope.

(** ** Python values *)

Module Py.

(** Scalar values found in the option tables and in the settings groups. *)
Inductive pyval : Type :=
  | VNone
  | VBool (b : bool)
  | VInt (z : Z)
  | VStr (s : string).

#[global] Instance pyval_eq_dec : EqDecision pyval.
Proof. solve_decision. Defined.

(** An entry of a top-level dictionary: a scalar, or a nested dictionary
    (the [database] and [fractal] groups). *)
Inductive entry : Type :=
  | Scalar (v : pyval)
  | Group (d : gmap string pyval).

#[global] Instance entry_eq_dec : EqDecision entry.
Proof. solve_decision. Defined.

(** [value is None] *)
Definition is_none (v : pyval) : bool :=
  match v with VNone => true | _ => false end.

(** Truth value of an object, as [if x:] and [not x] compute it. *)
Definition truthy (e : entry) : bool :=
  match e with
  | Scalar VNone => false
  | Scalar (VBool b) => b
  | Scalar (VInt z) => negb (z =? 0)
  | Scalar (VStr s) => negb (String.eqb s "")
  | Group d => negb (bool_decide (d = ∅))
  end.

(** [x == "lit"] for a string literal on the right. *)
Definition eq_str (e : entry) (lit : string) : bool :=
  match e with
  | Scalar (VStr s) => String.eqb s lit
  | _ => false
  end.

(** [sub in s] on strings: [sub] occurs somewhere in [s]. *)
Fixpoint str_contains (sub s : string) : bool :=
  String.prefix sub s ||
  match s with
  | EmptyString => false
  | String _ s' => str_contains sub s'
  end.

(** [s.replace(old, new)]: every occurrence of [old], found left to right
    and without overlap, becomes [new]. [skip] counts the characters of a
    matched occurrence still to be dropped. *)
Fixpoint replace_go (old new : string) (skip : nat) (s : string) : string :=
  match s with
  | EmptyString => EmptyString
  | String c s' =>
      match skip with
      | S k => replace_go old new k s'
      | O =>
          if String.prefix old s
          then new ++ replace_go old new (Nat.pred (String.length old)) s'
          else String c (replace_go old new O s')
      end
  end.

(** With an empty [old], Python puts [new] before every character and at
    the end. *)
Fixpoint intersperse (new s : string) : string :=
  match s with
  | EmptyString => new
  | String c s' => new ++ String c (intersperse new s')
  end.

(** The newline character, as a string. *)
Definition nl : string := String "010"%char EmptyString.

Definition str_replace (old new s : string) : string :=
  match old with
  | EmptyString => intersperse new s
  | String _ _ => replace_go old new O s
  end.

End Py.
Import Py.

(** ** Halting computations over a world *)

(** Exceptions the modelled code raises. *)
Inductive exn : Type :=
  | NameError (name : string)
  | KeyError (key : string)
  | TypeError
  | AttributeError (attr : string)
  | ValidationError
  | YAMLError
  | FileNotFoundError (path : string)
  | FileExistsError (path : string)
  | NotADirectoryError (path : string)
  | OSError
  | DatastoreError
  | ConnectionError
  | KeyboardInterrupt
  | Exception_.

(** A run stops early through [sys.exit(code)] or an uncaught exception;
    [Blocked] stands for a call that never comes back (an event loop with
    nothing left to arrive). *)
Inductive halt : Type :=
  | SysExit (code : Z)
  | Raised (e : exn)
  | Blocked.

Inductive res (A : Type) : Type :=
  | Ok (a : A)
  | Halt (h : halt).
Arguments Ok {A} a.
Arguments Halt {A} h.

#[global] Instance exn_eq_dec : EqDecision exn.
Proof. solve_decision. Defined.
#[global] Instance halt_eq_dec : EqDecision halt.
Proof. solve_decision. Defined.
#[global] Instance res_eq_dec {A} `{EqDecision A} : EqDecision (res A).
Proof. solve_decision. Defined.

(** Exit status of the process: 0 on a normal return, the argument of
    [sys.exit], and 1 when an exception reaches the top level. *)
Definition exit_status {A} (r : res A) : option Z :=
  match r with
  | Ok _ => Some 0
  | Halt (SysExit c) => Some c
  | Halt (Raised _) => Some 1
  | Halt Blocked => None
  end.

Section Monad.
Context {W : Type}.

Definition M (A : Type) : Type := W → res A * W.

Definition mret_M {A} (a : A) : M A := λ w, (Ok a, w).

Definition mbind_M {A B} (f : A → M B) (m : M A) : M B :=
  λ w, match m w with
       | (Ok a, w') => f a w'
       | (Halt h, w') => (Halt h, w')
       end.

Definition halt_with {A} (h : halt) : M A := λ w, (Halt h, w).
Definition raise {A} (e : exn) : M A := halt_with (Raised e).
Definition sys_exit {A} (code : Z) : M A := halt_with (SysExit code).
Definition modify (f : W → W) : M unit := λ w, (Ok tt, f w).
Definition gets {A} (f : W → A) : M A := λ w, (Ok (f w), w).

(** Lift a pure fallible step. *)
Definition lift {A} (r : res A) : M A := λ w, (r, w).
End Monad.
Arguments M : clear implicits.

#[global] Instance M_ret {W} : MRet (M W) := @mret_M W.
#[global] Instance M_bind {W} : MBind (M W) := @mbind_M W.

(** ** The command line of the QCFractal server *)

Module Cli.

(** What [print] shows and what a file holds: literal text, the YAML
    serialisation of a dictionary ([yaml.dump(d, default_flow_style=False)]),
    or the [repr] of a dictionary. The serialisers are kept symbolic: a dump
    is identified by the dictionary it was made from. *)
Inductive text : Type :=
  | Lit (s : string)
  | YamlDump (d : gmap string entry)
  | Repr (d : gmap string entry).

#[global] Instance text_eq_dec : EqDecision text.
Proof. solve_decision. Defined.

(** What [yaml.load] returns: [None] for an empty document, a dictionary
    with string keys, or anything else (a scalar, a list). *)
Inductive loaded : Type :=
  | LoadedNone
  | LoadedDict (d : gmap string entry)
  | LoadedOther.

(** Unpacking with two stars, as in the call of line 154: only a
    dictionary unpacks into keyword arguments. *)
Definition unpack_keywords (x : loaded) : res (gmap string entry) :=
  match x with
  | LoadedDict d => Ok d
  | LoadedNone | LoadedOther => Halt (Raised TypeError)
  end.

(** A [FractalConfig] object remembers which fields were given explicitly:
    [dict()] fills the declared defaults in, [dict(skip_defaults=True)]
    returns the explicit fields only. The fields it holds are the values
    the constructor has validated. *)
Record FractalConfig : Type := mkFractalConfig {
  base_folder_set : option string;
  database_set : option (gmap string pyval);
  fractal_set : option (gmap string pyval);
}.

#[global] Instance FractalConfig_eq_dec : EqDecision FractalConfig.
Proof. solve_decision. Defined.

(** What the command line uses and the sources do not hold is taken as a
    parameter.

    From the declarations of [qcfractal/config.py]: the field names of
    [FractalServerSettings], the declared defaults of the two settings
    groups and of [base_folder], the two file names from which
    [config_file_path] and [database_path] are derived, whether the
    constructor refuses keywords it does not declare, and the validation
    of a field, which converts the value given or rejects it ([None]).
    A validated value passes validation unchanged, and so do the declared
    defaults.

    From [qcfractal/postgres_manipulation.py]: what [initialize_postgres]
    leaves in the data directory, unless it fails ([None]).

    From the YAML library: what [yaml.load] makes of a text that is not
    the dump of a dictionary, unless it is no YAML at all ([None]). *)
Class Declared : Type := {
  server_field_names : list string;
  database_defaults : gmap string pyval;
  fractal_defaults : gmap string pyval;
  default_base_folder : string;
  config_file_name : string;
  database_dir_name : string;
  forbids_extra : bool;
  base_folder_field : pyval → option string;
  database_field : string → pyval → option pyval;
  fractal_field : string → pyval → option pyval;
  postgres_init : FractalConfig → gmap string text → option (gmap string text);
  yaml_parse : text → option loaded;
  base_folder_field_valid :
    ∀ v s, base_folder_field v = Some s → base_folder_field (VStr s) = Some s;
  default_base_folder_valid :
    base_folder_field (VStr default_base_folder) = Some default_base_folder;
  database_field_valid :
    ∀ k v v', database_field k v = Some v' → database_field k v' = Some v';
  database_defaults_valid :
    ∀ k v, database_defaults !! k = Some v → database_field k v = Some v;
  fractal_field_valid :
    ∀ k v v', fractal_field k v = Some v' → fractal_field k v' = Some v';
  fractal_defaults_valid :
    ∀ k v, fractal_defaults !! k = Some v → fractal_field k v = Some v;
}.

(** Observable actions, in program order. *)
Inductive event : Type :=
  | EPrint (t : text)
  | EPrintHelp
  | EMkdir (p : string)
  | EShutdownPostgres (c : FractalConfig)
  | ERmtree (p : string)
  | EInitializePostgres (c : FractalConfig) (quiet : bool)
  | EOpenTruncate (p : string)
  | EWrite (p : string) (t : text).

#[global] Instance event_eq_dec : EqDecision event.
Proof. solve_decision. Defined.

(** The world of one run: directories and files by path, the option table
    [vars(parser.parse_args())] obtained from [sys.argv], the lines the
    operator would type on standard input, and the actions so far. *)
Record World : Type := mkWorld {
  dirs : gset string;
  files : gmap string text;
  argv_vars : list (string * pyval);
  stdin : list string;
  trace : list event;
}.

Definition set_dirs (f : gset string → gset string) (w : World) : World :=
  mkWorld (f (dirs w)) (files w) (argv_vars w) (stdin w) (trace w).
Definition set_files (f : gmap string text → gmap string text) (w : World) : World :=
  mkWorld (dirs w) (f (files w)) (argv_vars w) (stdin w) (trace w).
Definition set_trace (f : list event → list event) (w : World) : World :=
  mkWorld (dirs w) (files w) (argv_vars w) (stdin w) (f (trace w)).

Definition emit (e : event) : M World unit := modify (set_trace (λ t, (t ++ [e])%list)).
Definition print (t : text) : M World unit := emit (EPrint t).

(** The world after the actions [evs] have been recorded. *)
Definition extend (evs : list event) (w : World) : World :=
  set_trace (λ t, (t ++ evs)%list) w.
Definition print_str (s : string) : M World unit := print (Lit s).

(** *** Paths *)

(** [base / name] *)
Definition path_join (base name : string) : string := base ++ "/" ++ name.

(** [q] lies below directory [p]. *)
Definition under (p q : string) : bool := String.prefix (p ++ "/") q.

(** [Path.exists()] *)
Definition exists_in (w : World) (p : string) : bool :=
  bool_decide (p ∈ dirs w) || bool_decide (is_Some (files w !! p)).
Definition path_exists (p : string) : M World bool := gets (λ w, exists_in w p).

(** The part of a path before its last separator. *)
Fixpoint before_last_slash (s : string) : option string :=
  match s with
  | EmptyString => None
  | String c s' =>
      match before_last_slash s' with
      | Some p => Some (String c p)
      | None => if Ascii.eqb c "/" then Some EmptyString else None
      end
  end.

(** [Path.parent]: the root for a name right below it, the current
    directory for a single relative name. *)
Definition parent (p : string) : string :=
  match before_last_slash p with
  | Some EmptyString => "/"
  | Some d => d
  | None => "."
  end.

(** [Path.mkdir(exist_ok=True)], without [parents=True]: nothing happens
    on an existing directory; an existing file at the path is an error, and
    so is a parent that is missing or is not a directory. *)
Definition mkdir_exist_ok (p : string) : M World unit :=
  emit (EMkdir p) ;;
  is_dir ← gets (λ w, bool_decide (p ∈ dirs w));
  if (is_dir : bool) then mret tt
  else
    has_file ← gets (λ w, bool_decide (is_Some (files w !! p)));
    if (has_file : bool) then raise (FileExistsError p)
    else
      has_parent ← gets (λ w, bool_decide (parent p ∈ dirs w));
      if (has_parent : bool) then modify (set_dirs (λ d, {[p]} ∪ d))
      else
        parent_is_file ← gets (λ w, bool_decide (is_Some (files w !! parent p)));
        if (parent_is_file : bool) then raise (NotADirectoryError p)
        else raise (FileNotFoundError p).

(** [Path.read_text()] *)
Definition read_text (p : string) : M World text :=
  f ← gets (λ w, files w !! p);
  match f with
  | Some t => mret t
  | None => raise (FileNotFoundError p)
  end.

(** [Path.write_text(data)] is [open(mode='w')], which truncates the file
    at the path, followed by the write of the data. *)
Definition open_truncate (p : string) : M World unit :=
  is_dir ← gets (λ w, bool_decide (p ∈ dirs w));
  if (is_dir : bool) then raise OSError
  else emit (EOpenTruncate p) ;; modify (set_files (λ f, <[p := Lit ""]> f)).

Definition write_data (p : string) (t : text) : M World unit :=
  emit (EWrite p t) ;; modify (set_files (λ f, <[p := t]> f)).

Definition write_text (p : string) (t : text) : M World unit :=
  open_truncate p ;; write_data p t.

(** The steps of [write_text], one after the other, and the worlds a run
    of such steps passes through, the first one included: a crash leaves
    the file system in one of them. *)
Definition write_text_steps (p : string) (t : text) : list (M World unit) :=
  [open_truncate p; write_data p t].

Fixpoint states_through (steps : list (M World unit)) (w : World) : list World :=
  match steps with
  | [] => [w]
  | s :: rest =>
      w :: match s w with
           | (Ok _, w') => states_through rest w'
           | (Halt _, w') => [w']
           end
  end.

(** [shutil.rmtree(p, ignore_errors=True)]: a directory goes with all that
    lies below it; on anything else the error is ignored. *)
Definition remove_tree (p : string) (w : World) : World :=
  if bool_decide (p ∈ dirs w)
  then set_files (filter (λ kv, negb (under p kv.1)))
         (set_dirs (filter (λ q, negb (under p q) && negb (String.eqb q p))) w)
  else w.
Definition rmtree (p : string) : M World unit :=
  emit (ERmtree p) ;; modify (remove_tree p).

(** [shutdown_postgres] belongs to [qcfractal/postgres_manipulation.py],
    which is not among the sources: the call is recorded; the server
    process it stops is not part of the world. *)
Definition shutdown_postgres (c : FractalConfig) : M World unit :=
  emit (EShutdownPostgres c).

(** *** Vocabulary of the statements *)

(** Every run of [m] only adds actions satisfying [P] to the trace, leaves
    the pending input of the operator alone, and halts only in a way
    satisfying [Q]. *)
Definition behaves {A} (P : event → Prop) (Q : halt → Prop) (m : M World A) : Prop :=
  ∀ w r w', m w = (r, w') →
    (∃ later, trace w' = (trace w ++ later)%list ∧ Forall P later)
    ∧ stdin w' = stdin w
    ∧ ∀ h, r = Halt h → Q h.

Definition not_rmtree (e : event) : Prop := ∀ p, e ≠ ERmtree p.
Definition not_sys_exit (h : halt) : Prop := ∀ c, h ≠ SysExit c.

(** What an atomic replacement of the file at [p] by [new] would
    guarantee: in every world the write passes through, the path holds
    the old content or the new one. *)
Definition atomic_replace (p : string) (new : text) (w : World) : Prop :=
  ∀ w', w' ∈ states_through (write_text_steps p new) w →
        files w' !! p = files w !! p ∨ files w' !! p = Some new.

(** Every run of [m] relates the world it starts in to the world it ends
    in by [R]. *)
Definition establishes {A} (R : World → World → Prop) (m : M World A) : Prop :=
  ∀ w r w', m w = (r, w') → R w w'.

(** The files at the paths satisfying [keep] are the same in both worlds. *)
Definition same_files (keep : string → Prop) (w w' : World) : Prop :=
  ∀ q, keep q → files w' !! q = files w !! q.

(** A printed dump of a configuration shows the stars in place of the
    database password; any other action passes. *)
Definition redacted_print (e : event) : Prop :=
  ∀ d, e = EPrint (YamlDump d) →
       ∃ g, d !! "database" = Some (Group g)
            ∧ g !! "password" = Some (VStr "**************").

(** A print, of whatever text. *)
Definition is_print (e : event) : Prop := ∃ t, e = EPrint t.

(** Nothing was removed on the way from [w] to [w']: every directory and
    every file of [w] is still there. *)
Definition keeps_all (w w' : World) : Prop :=
  dirs w ⊆ dirs w' ∧ dom (files w) ⊆ dom (files w').

(** An action that neither shuts the database down nor removes a tree. *)
Definition harmless (e : event) : Prop :=
  (∀ c, e ≠ EShutdownPostgres c) ∧ not_rmtree e.

(** *** The names of the options *)

(** Lines 25, 30 and 40 derive the option strings from the field names. *)
Definition db_cli_name (field : string) : string :=
  "--db-" ++ str_replace "_" "-" field.
Definition server_cli_name (field : string) : string :=
  "--" ++ str_replace "_" "-" field.

(** [argparse] derives the key of an option in the table from its long
    option string: [option.lstrip('-').replace('-', '_')]. *)
Fixpoint lstrip_dash (s : string) : string :=
  match s with
  | String "-" s' => lstrip_dash s'
  | _ => s
  end.
Definition argparse_dest (option : string) : string :=
  str_replace "-" "_" (lstrip_dash option).

Section WithDeclared.
Context `{Declared}.

(** *** The configuration object *)

(** The keywords the constructor declares. *)
Definition declared_keywords : gset string :=
  {[ "base_folder"; "database"; "fractal" ]}.

Definition has_extra (kw : gmap string entry) : bool :=
  negb (bool_decide (dom kw ⊆ declared_keywords)).

(** Validation of a settings group: every field given must pass the
    validation of that field, and is stored as converted. *)
Definition validate_group (field : string → pyval → option pyval)
    (g : gmap string pyval) : res (gmap string pyval) :=
  if bool_decide (map_Forall (λ k v, is_Some (field k v)) g)
  then Ok (map_imap field g)
  else Halt (Raised ValidationError).

Definition field_base (e : option entry) : res (option string) :=
  match e with
  | None => Ok None
  | Some (Scalar v) =>
      match base_folder_field v with
      | Some s => Ok (Some s)
      | None => Halt (Raised ValidationError)
      end
  | Some (Group _) => Halt (Raised ValidationError)
  end.

Definition field_group (field : string → pyval → option pyval) (e : option entry)
    : res (option (gmap string pyval)) :=
  match e with
  | None => Ok None
  | Some (Group d) =>
      match validate_group field d with
      | Ok d' => Ok (Some d')
      | Halt h => Halt h
      end
  | Some (Scalar _) => Halt (Raised ValidationError)
  end.

(** The constructor [FractalConfig] applied to the keyword arguments [kw]:
    an undeclared keyword fails validation when the declarations forbid
    it; the three declared fields are read from the keyword arguments and
    validated, the two groups field by field. *)
Definition FractalConfig_new (kw : gmap string entry) : res FractalConfig :=
  if forbids_extra && has_extra kw then Halt (Raised ValidationError)
  else
    match field_base (kw !! "base_folder"),
          field_group database_field (kw !! "database"),
          field_group fractal_field (kw !! "fractal") with
    | Ok b, Ok d, Ok f => Ok (mkFractalConfig b d f)
    | Halt h, _, _ | _, Halt h, _ | _, _, Halt h => Halt h
    end.

(** The entries of a settings group pass the validation of their fields
    unchanged; a configuration object holds such fields only. *)
Definition valid_entries (field : string → pyval → option pyval)
    (g : gmap string pyval) : Prop :=
  ∀ k v, g !! k = Some v → field k v = Some v.

Definition valid_config (c : FractalConfig) : Prop :=
  (∀ s, base_folder_set c = Some s → base_folder_field (VStr s) = Some s)
  ∧ (∀ g, database_set c = Some g → valid_entries database_field g)
  ∧ (∀ g, fractal_set c = Some g → valid_entries fractal_field g).

Definition base_folder (c : FractalConfig) : string :=
  default default_base_folder (base_folder_set c).
Definition base_path (c : FractalConfig) : string := base_folder c.
Definition config_file_path (c : FractalConfig) : string :=
  path_join (base_path c) config_file_name.
Definition database_path (c : FractalConfig) : string :=
  path_join (base_path c) database_dir_name.

(** [config.database.dict()] and [config.fractal.dict()] *)
Definition database (c : FractalConfig) : gmap string pyval :=
  default ∅ (database_set c) ∪ database_defaults.
Definition fractal (c : FractalConfig) : gmap string pyval :=
  default ∅ (fractal_set c) ∪ fractal_defaults.

(** [config.dict()] *)
Definition dict (c : FractalConfig) : gmap string entry :=
  <["base_folder" := Scalar (VStr (base_folder c))]>
  (<["database" := Group (database c)]>
  (<["fractal" := Group (fractal c)]> ∅)).

Definition set_opt {A} (k : string) (o : option A) (f : A → entry)
    (m : gmap string entry) : gmap string entry :=
  match o with
  | Some a => <[k := f a]> m
  | None => m
  end.

(** [config.dict(skip_defaults=True)] *)
Definition dict_skip_defaults (c : FractalConfig) : gmap string entry :=
  set_opt "base_folder" (base_folder_set c) (λ s, Scalar (VStr s))
  (set_opt "database" (database_set c) Group
  (set_opt "fractal" (fractal_set c) Group ∅)).

(** *** The collaborators outside the sources *)

(** Modelled from the spec: [initialize_postgres] of
    [qcfractal/postgres_manipulation.py], which is not among the sources.
    It brings the database up in the data directory or fails: the call is
    recorded, and what it leaves there is added to the files below the data
    directory. Nothing outside that directory is touched and no file is
    removed. *)
Definition initialize_postgres (c : FractalConfig) (quiet : bool) : M World unit :=
  emit (EInitializePostgres c quiet) ;;
  f ← gets files;
  match postgres_init c f with
  | Some data =>
      modify (set_files (λ f, filter (λ kv, under (database_path c) kv.1) data ∪ f))
  | None => raise DatastoreError
  end.

(** [yaml.load(text)]: the dump of a dictionary gives the dictionary back,
    an empty text gives [None]. *)
Definition yaml_load (t : text) : res loaded :=
  match t with
  | YamlDump d => Ok (LoadedDict d)
  | Lit EmptyString => Ok LoadedNone
  | other =>
      match yaml_parse other with
      | Some l => Ok l
      | None => Halt (Raised YAMLError)
      end
  end.

(** *** [parse_args]: moving the parsed options into groups *)

(** [ret[g][k] = v] *)
Definition setitem_group (ret : gmap string entry) (g k : string) (v : pyval)
    : res (gmap string entry) :=
  match ret !! g with
  | Some (Group d) => Ok (<[g := Group (<[k := v]> d)]> ret)
  | Some (Scalar _) => Halt (Raised TypeError)
  | None => Halt (Raised (KeyError g))
  end.

(** One round of the loop over [args.items()]. *)
Definition move_arg (ret : gmap string entry) (kv : string * pyval)
    : res (gmap string entry) :=
  let '(key, value) := kv in
  if is_none value then Ok ret
  else if str_contains "db" key
  then setitem_group ret "database" (str_replace "db_" "" key) value
  else if bool_decide (key ∈ server_field_names)
  then setitem_group ret "fractal" key value
  else Ok (<[key := Scalar value]> ret).

Fixpoint move_args (ret : gmap string entry) (items : list (string * pyval))
    : res (gmap string entry) :=
  match items with
  | [] => Ok ret
  | kv :: rest =>
      match move_arg ret kv with
      | Ok ret' => move_args ret' rest
      | Halt h => Halt h
      end
  end.

(** [ret = {}; ret["database"] = {}; ret["fractal"] = {}] *)
Definition ret0 : gmap string entry :=
  <["fractal" := Group ∅]> (<["database" := Group ∅]> ∅).

(** [args[k]] on the option table. *)
Fixpoint getitem (items : list (string * pyval)) (k : string) : res pyval :=
  match items with
  | [] => Halt (Raised (KeyError k))
  | (k', v) :: rest => if String.eqb k' k then Ok v else getitem rest k
  end.

Definition parse_args : M World (gmap string entry) :=
  args ← gets argv_vars;
  ret ← lift (move_args ret0 args);
  cmd ← lift (getitem args "cmd");
  if is_none cmd then emit EPrintHelp ;; sys_exit 1
  else mret ret.

(** *** [server_init] *)

Definition sentinel : string := "REMOVEALLDATA".
Definition stars : string := "**************".

(** [server_init] reads the name [args], which is neither a parameter nor a
    local of the function: it is looked up among the module's globals [G]
    (names bound to dictionaries). *)
Definition server_init (G : gmap string (gmap string entry)) (config : FractalConfig)
    : M World unit :=
  print_str "Initializing QCFractal configuration." ;;
  mkdir_exist_ok (base_path config) ;;
  overwrite ← match G !! "args" with
              | Some a => mret (default (Scalar (VBool false)) (a !! "overwrite"))
              | None => raise (NameError "args")
              end;
  found ← path_exists (config_file_path config);
  (if (found : bool) then
     print_str "" ;;
     if negb (truthy overwrite) then
       print_str ("QCFractal configuration file already exists, to overwrite use '--overwrite' "
                  ++ "or use the `qcfractal-server config` command line to alter settings.") ;;
       sys_exit 2
     else
       print_str "!WARNING! A QCFractal configuration is currently initalized" ;;
       print_str ("!WARNING! Overwriting will delete all current Fractal data, this includes all data in "
                  ++ database_path config ++ ".") ;;
       print_str "!WARNING! Please use `qcfractal-server config` to alter configuration settings instead." ;;
       print_str "" ;;
       print_str "!WARNING! If you are sure you wish to procede please type 'REMOVEALLDATA' below." ;;
       let inp := "REMOVEALLDATA" in
       print_str "" ;;
       if String.eqb inp sentinel then
         print_str "All data will be removed from the current QCFractal instance." ;;
         shutdown_postgres config ;;
         rmtree (database_path config)
       else
         print_str "Input does not match 'REMOVEALLDATA', exiting." ;;
         sys_exit 1
   else mret tt) ;;
  print_config ← lift (setitem_group (dict config) "database" "password" (VStr stars));
  print_str (nl ++ ">>> Settings found:" ++ nl) ;;
  print (YamlDump print_config) ;;
  print_str (nl ++ ">>> Setting up PostgreSQL..." ++ nl) ;;
  mkdir_exist_ok (database_path config) ;;
  initialize_postgres config false ;;
  print_str (nl ++ ">>> Writing settings...") ;;
  write_text (config_file_path config) (YamlDump (dict config)) ;;
  print_str (nl ++ ">>> Finishing up...") ;;
  print_str (nl ++ ">>> Success! Please run `qcfractal-server start` to boot a FractalServer!").

(** The actions [server_init] records on its way to the shutdown of the
    database, when the configuration file is there and the overwrite flag
    was seen (lines 76 to 99). *)
Definition before_shutdown (config : FractalConfig) : list event :=
  [EPrint (Lit "Initializing QCFractal configuration.");
   EMkdir (base_path config);
   EPrint (Lit "");
   EPrint (Lit "!WARNING! A QCFractal configuration is currently initalized");
   EPrint (Lit ("!WARNING! Overwriting will delete all current Fractal data, this includes all data in "
                ++ database_path config ++ "."));
   EPrint (Lit "!WARNING! Please use `qcfractal-server config` to alter configuration settings instead.");
   EPrint (Lit "");
   EPrint (Lit "!WARNING! If you are sure you wish to procede please type 'REMOVEALLDATA' below.");
   EPrint (Lit "");
   EPrint (Lit "All data will be removed from the current QCFractal instance.")].

(** *** [server_config] *)

Definition server_config (config : FractalConfig) : M World unit :=
  print_str ("Displaying QCFractal configuration:" ++ nl) ;;
  print (YamlDump (dict config)).

(** *** [main] *)

(** [d.pop(k)] *)
Definition dict_pop (d : gmap string entry) (k : string)
    : res (entry * gmap string entry) :=
  match d !! k with
  | Some e => Ok (e, delete k d)
  | None => Halt (Raised (KeyError k))
  end.

(** The dictionary display with two unpackings, [first] then [second]: on a
    key of both, the value of [second] stays. *)
Definition unpack2 (first second : entry) : res entry :=
  match first, second with
  | Group a, Group b => Ok (Group (b ∪ a))
  | _, _ => Halt (Raised TypeError)
  end.

(** Lines 154 to 160: the persisted record is read, and its [fractal] group
    is rebuilt from the explicit fields of the command line and the group
    of the file. *)
Definition merge_files (config : FractalConfig) : M World FractalConfig :=
  t ← read_text (config_file_path config);
  loaded ← lift (yaml_load t);
  kw ← lift (unpack_keywords loaded);
  file_config ← lift (FractalConfig_new kw);
  let file_dict := dict file_config in
  let config_dict := dict_skip_defaults config in
  '(cli_fractal, _) ← lift (dict_pop config_dict "fractal");
  '(file_fractal, file_dict) ← lift (dict_pop file_dict "fractal");
  merged ← lift (unpack2 cli_fractal file_fractal);
  lift (FractalConfig_new (<["fractal" := merged]> file_dict)).

(** [main(args)]. What follows [raise Exception()] at line 166 in the source
    can never run and has no counterpart here. *)
Definition main (G : gmap string (gmap string entry))
    (args : option (gmap string entry)) : M World unit :=
  args ← match args with
         | Some a => mret a
         | None => a ← parse_args; print (Repr a) ;; mret a
         end;
  '(cmd, args) ← lift (dict_pop args "cmd");
  config ← lift (FractalConfig_new args);
  config ← (if negb (eq_str cmd "init") then
              has_base ← path_exists (base_path config);
              if negb has_base then
                print_str ("Could not find configuration file path: " ++ base_path config) ;;
                sys_exit 1
              else
                has_file ← path_exists (config_file_path config);
                if negb has_file then
                  print_str ("Could not find configuration file: " ++ config_file_path config) ;;
                  sys_exit 1
                else merge_files config
            else mret config);
  if eq_str cmd "init" then server_init G config
  else if eq_str cmd "config" then server_config config
  else raise Exception_.

(** The module as it is written binds no global named [args]. *)
Definition module_globals : gmap string (gmap string entry) := ∅.

(** *** Vocabulary of the statements about [parse_args] *)

(** No option that stays at the top level is called [database] or
    [fractal]: the two groups are not overwritten by an option. *)
Definition keeps_groups (items : list (string * pyval)) : Prop :=
  ∀ k v, (k, v) ∈ items → v ≠ VNone → str_contains "db" k = false →
         k ∉ server_field_names → k ≠ "database" ∧ k ≠ "fractal".

(** The state of the loop after the options [items]: [db] and [fr] are the
    two groups of [ret]. *)
Definition routed (items : list (string * pyval)) (ret : gmap string entry)
    (db fr : gmap string pyval) : Prop :=
  ret !! "database" = Some (Group db)
  ∧ ret !! "fractal" = Some (Group fr)
  ∧ (∀ n d, ret !! n = Some (Group d) → n = "database" ∨ n = "fractal")
  ∧ (∀ k v, (k, v) ∈ items → v ≠ VNone → str_contains "db" k = true →
       is_Some (db !! str_replace "db_" "" k))
  ∧ (∀ k v, (k, v) ∈ items → v ≠ VNone → str_contains "db" k = true →
       (∀ k' v', (k', v') ∈ items → v' ≠ VNone → str_contains "db" k' = true →
                 str_replace "db_" "" k' = str_replace "db_" "" k → k' = k) →
       db !! str_replace "db_" "" k = Some v)
  ∧ (∀ n v, db !! n = Some v →
       v ≠ VNone ∧ ∃ k, (k, v) ∈ items ∧ str_contains "db" k = true
                        ∧ n = str_replace "db_" "" k)
  ∧ (∀ n v, fr !! n = Some v →
       v ≠ VNone ∧ (n, v) ∈ items ∧ str_contains "db" n = false)
  ∧ (∀ n v, ret !! n = Some (Scalar v) →
       v ≠ VNone ∧ (n, v) ∈ items ∧ str_contains "db" n = false).

(** Where the loop leaves the options that are not database options:
    a field of the server settings in the [fractal] group, anything else at
    the top level, each under its own name and with its own value. *)
Definition placed (items : list (string * pyval)) (ret : gmap string entry) : Prop :=
  (∃ db, ret !! "database" = Some (Group db))
  ∧ (∃ fr, ret !! "fractal" = Some (Group fr)
           ∧ ∀ k v, (k, v) ∈ items → v ≠ VNone → str_contains "db" k = false →
                    k ∈ server_field_names → fr !! k = Some v)
  ∧ (∀ k v, (k, v) ∈ items → v ≠ VNone → str_contains "db" k = false →
            k ∉ server_field_names → ret !! k = Some (Scalar v)).

(** The options [main] works with: those passed in, or those
    [parse_args] returns. *)
Definition options_of (given : option (gmap string entry)) (w : World)
    (args : gmap string entry) : Prop :=
  given = Some args ∨ (given = None ∧ parse_args w = (Ok args, w)).

End WithDeclared.

(** *** A concrete installation, for the examples *)

(** The fields of the example. A port is an integer between 1 and 65535,
    and a string of digits is converted to it; the other fields are
    strings or [None]. *)
Definition example_port (v : pyval) : option pyval :=
  match v with
  | VInt z => if bool_decide (0 < z < 65536) then Some (VInt z) else None
  | VStr (String c s) =>
      match NilEmpty.uint_of_string (String c s) with
      | Some u =>
          if bool_decide (0 < Z.of_uint u < 65536) then Some (VInt (Z.of_uint u))
          else None
      | None => None
      end
  | _ => None
  end.

Definition example_optional_str (v : pyval) : option pyval :=
  match v with
  | VNone | VStr _ => Some v
  | _ => None
  end.

Definition example_database_field (k : string) (v : pyval) : option pyval :=
  if String.eqb k "port" then example_port v
  else if String.eqb k "host" || String.eqb k "password"
          || String.eqb k "database_name"
  then example_optional_str v
  else None.

Definition example_fractal_field (k : string) (v : pyval) : option pyval :=
  if String.eqb k "port" then example_port v
  else if String.eqb k "logfile" || String.eqb k "rdbms"
  then example_optional_str v
  else None.

Definition example_base_folder_field (v : pyval) : option string :=
  match v with
  | VStr (String c s) => Some (String c s)
  | _ => None
  end.

(** In the example the database comes up and leaves its version file. *)
Definition example_postgres_init (c : FractalConfig) (f : gmap string text)
    : option (gmap string text) :=
  Some {[ (default "/home/qc/.qca/qcfractal" (base_folder_set c) ++ "/postgres/PG_VERSION")
        := Lit "10" ]}.

Definition example_declared : Declared.
Proof.
  assert (∀ v v', example_port v = Some v' → example_port v' = Some v') as Hport.
  { intros v v'. destruct v as [|b|z|[|c s]]; cbn [example_port]; try discriminate.
    - case_bool_decide; [|discriminate]. intros [= <-]. cbn [example_port].
      by rewrite bool_decide_eq_true_2.
    - destruct (NilEmpty.uint_of_string (String c s)) as [u|]; [|discriminate].
      case_bool_decide; [|discriminate]. intros [= <-]. cbn [example_port].
      by rewrite bool_decide_eq_true_2. }
  assert (∀ v v', example_optional_str v = Some v' → example_optional_str v' = Some v')
    as Hstr.
  { intros v v'. destruct v; simpl; try discriminate; by intros [= <-]. }
  refine {|
    server_field_names := ["port"; "logfile"; "rdbms"];
    database_defaults := {[ "host" := VStr "localhost"; "password" := VNone ]};
    fractal_defaults := {[ "port" := VInt 7777; "logfile" := VNone; "rdbms" := VNone ]};
    default_base_folder := "/home/qc/.qca/qcfractal";
    config_file_name := "qcfractal_config.yaml";
    database_dir_name := "postgres";
    forbids_extra := true;
    base_folder_field := example_base_folder_field;
    database_field := example_database_field;
    fractal_field := example_fractal_field;
    postgres_init := example_postgres_init;
    yaml_parse := λ _, None;
  |}.
  - intros v s'. destruct v as [|?|?|[|c s]]; simpl; try discriminate.
    by intros [= <-].
  - reflexivity.
  - intros k v v'. unfold example_database_field.
    destruct (String.eqb k "port"); [apply Hport|].
    destruct (_ || _); [apply Hstr|discriminate].
  - intros k v. rewrite !lookup_insert_Some, lookup_singleton_Some.
    intros [[<- <-]|[_ [<- <-]]]; reflexivity.
  - intros k v v'. unfold example_fractal_field.
    destruct (String.eqb k "port"); [apply Hport|].
    destruct (_ || _); [apply Hstr|discriminate].
  - intros k v. rewrite !lookup_insert_Some, lookup_singleton_Some.
    intros [[<- <-]|[_ [[<- <-]|[_ [<- <-]]]]]; reflexivity.
Defined.

(** The record persisted by an earlier [init]: port 7777, password
    [hunter2]. *)
Definition example_record : gmap string entry :=
  <["base_folder" := Scalar (VStr "/srv/qcf")]>
  (<["database" := Group (<["password" := VStr "hunter2"]> (<["host" := VStr "db.example"]> ∅))]>
  (<["fractal" := Group (<["port" := VInt 7777]> (<["logfile" := VNone]> ∅))]> ∅)).

(** An initialised base directory with one file of data; the operator is
    about to type [no]. *)
Definition example_world : World := {|
  dirs := {[ "/srv/qcf"; "/srv/qcf/postgres" ]};
  files := <["/srv/qcf/qcfractal_config.yaml" := YamlDump example_record]>
           (<["/srv/qcf/postgres/PG_VERSION" := Lit "10"]> ∅);
  argv_vars := [];
  stdin := ["no"];
  trace := [];
|}.

(** A base directory that was never initialised. *)
Definition fresh_world : World := {|
  dirs := {[ "/srv/qcf" ]};
  files := ∅;
  argv_vars := [];
  stdin := [];
  trace := [];
|}.

(** [qcfractal-server start --port 8888 --base-folder /srv/qcf], after
    [parse_args]. *)
Definition start_args : gmap string entry :=
  <["cmd" := Scalar (VStr "start")]>
  (<["base_folder" := Scalar (VStr "/srv/qcf")]>
  (<["database" := Group ∅]>
  (<["fractal" := Group (<["port" := VInt 8888]> ∅)]> ∅))).

(** [qcfractal-server config --base-folder /srv/qcf] *)
Definition config_args : gmap string entry :=
  <["cmd" := Scalar (VStr "config")]>
  (<["base_folder" := Scalar (VStr "/srv/qcf")]>
  (<["database" := Group ∅]>
  (<["fractal" := Group ∅]> ∅))).

(** [qcfractal-server init --base-folder /srv/qcf], with and without
    [--overwrite]. *)
Definition init_args (overwrite : bool) : gmap string entry :=
  <["cmd" := Scalar (VStr "init")]>
  (<["base_folder" := Scalar (VStr "/srv/qcf")]>
  (<["overwrite" := Scalar (VBool overwrite)]>
  (<["database" := Group (<["password" := VStr "s3cret"]> ∅)]>
  (<["fractal" := Group ∅]> ∅)))).

(** [main] called with its options, for [init] on [/srv/qcf]: the keywords
    of the constructor and the sub-command, no [overwrite]. *)
Definition init_keywords : gmap string entry :=
  <["cmd" := Scalar (VStr "init")]>
  (<["base_folder" := Scalar (VStr "/srv/qcf")]>
  (<["database" := Group (<["password" := VStr "s3cret"]> ∅)]>
  (<["fractal" := Group ∅]> ∅))).

(** [qcfractal-server start --port abc --base-folder /srv/qcf], should the
    option table carry the text as it was typed. *)
Definition bad_port_args : gmap string entry :=
  <["cmd" := Scalar (VStr "start")]>
  (<["base_folder" := Scalar (VStr "/srv/qcf")]>
  (<["database" := Group ∅]>
  (<["fractal" := Group (<["port" := VStr "abc"]> ∅)]> ∅))).

(** A record written by hand, with the port as a text of digits, and the
    initialised directory that holds it. *)
Definition typed_record : gmap string entry :=
  <["base_folder" := Scalar (VStr "/srv/qcf")]>
  (<["database" := Group (<["password" := VStr "hunter2"]> ∅)]>
  (<["fractal" := Group (<["port" := VStr "8080"]> ∅)]> ∅)).

Definition typed_config : FractalConfig :=
  mkFractalConfig (Some "/srv/qcf") (Some (<["password" := VStr "hunter2"]> ∅))
    (Some (<["port" := VInt 8080]> ∅)).

Definition typed_world : World := {|
  dirs := {[ "/srv/qcf"; "/srv/qcf/postgres" ]};
  files := <["/srv/qcf/qcfractal_config.yaml" := YamlDump typed_record]> ∅;
  argv_vars := [];
  stdin := [];
  trace := [];
|}.

(** The configuration objects [main] builds from [start_args] and from the
    persisted record. *)
Definition start_config : FractalConfig :=
  mkFractalConfig (Some "/srv/qcf") (Some ∅) (Some (<["port" := VInt 8888]> ∅)).

Definition record_config : FractalConfig :=
  mkFractalConfig (Some "/srv/qcf")
    (Some (<["password" := VStr "hunter2"]> (<["host" := VStr "db.example"]> ∅)))
    (Some (<["port" := VInt 7777]> (<["logfile" := VNone]> ∅))).

(** The configuration object [main] builds from [init_args]. *)
Definition init_config : FractalConfig :=
  mkFractalConfig (Some "/srv/qcf") (Some (<["password" := VStr "s3cret"]> ∅)) (Some ∅).

(** The option table [argparse] returns for
    [init --db-port 5432 --rdbms postgres --port 7777 --base-folder /srv/qcf]:
    [rdbms] is a field of the server settings. *)
Definition example_vars : list (string * pyval) :=
  [ ("cmd", VStr "init"); ("db_host", VNone); ("db_port", VInt 5432);
    ("rdbms", VStr "postgres"); ("port", VInt 7777); ("logfile", VNone);
    ("overwrite", VBool false); ("base_folder", VStr "/srv/qcf") ].

(** A directory shared with other files, and the worlds in which the
    options come from the command line: [init --db-password hunter2], and
    no sub-command at all. *)
Definition shared_world : World := {|
  dirs := dirs example_world;
  files := <["/srv/qcf/notes.txt" := Lit "keep"]> (files example_world);
  argv_vars := [];
  stdin := ["no"];
  trace := [];
|}.

Definition password_vars : list (string * pyval) :=
  [ ("cmd", VStr "init"); ("db_password", VStr "hunter2"); ("db_host", VNone);
    ("port", VNone); ("overwrite", VBool false); ("base_folder", VStr "/srv/qcf") ].

Definition command_line_world : World := {|
  dirs := {[ "/srv/qcf" ]};
  files := ∅;
  argv_vars := password_vars;
  stdin := [];
  trace := [];
|}.

(** [qcfractal-server init --overwrite --base-folder /srv/qcf] on the
    initialised directory, the operator about to type [no]. *)
Definition overwrite_vars : list (string * pyval) :=
  [ ("cmd", VStr "init"); ("db_password", VStr "s3cret"); ("db_host", VNone);
    ("port", VNone); ("overwrite", VBool true); ("base_folder", VStr "/srv/qcf") ].

(** What [parse_args] makes of that table. *)
Definition overwrite_args : gmap string entry :=
  <["cmd" := Scalar (VStr "init")]>
  (<["overwrite" := Scalar (VBool true)]>
  (<["base_folder" := Scalar (VStr "/srv/qcf")]>
  (<["database" := Group (<["password" := VStr "s3cret"]> ∅)]>
  (<["fractal" := Group ∅]> ∅)))).

Definition overwrite_world : World := {|
  dirs := {[ "/srv/qcf"; "/srv/qcf/postgres" ]};
  files := files example_world;
  argv_vars := overwrite_vars;
  stdin := ["no"];
  trace := [];
|}.

Definition bare_world : World := {|
  dirs := ∅;
  files := ∅;
  argv_vars := [("cmd", VNone)];
  stdin := [];
  trace := [];
|}.

End Cli.

(** ** The DQM server shell *)

Module Dqm.

(** What an attribute access or a constructor argument can be here: a
    string, or a method bound to a string. *)
Inductive pyobj : Type :=
  | OStr (s : string)
  | OMethod (self name : string).

(** The public attributes of a [str] object are its methods; special
    (double underscore) names are not listed. *)
Definition str_methods : list string :=
  [ "capitalize"; "casefold"; "center"; "count"; "encode"; "endswith";
    "expandtabs"; "find"; "format"; "format_map"; "index"; "isalnum";
    "isalpha"; "isascii"; "isdecimal"; "isdigit"; "isidentifier"; "islower";
    "isnumeric"; "isprintable"; "isspace"; "istitle"; "isupper"; "join";
    "ljust"; "lower"; "lstrip"; "maketrans"; "partition"; "replace"; "rfind";
    "rindex"; "rjust"; "rpartition"; "rsplit"; "rstrip"; "split";
    "splitlines"; "startswith"; "strip"; "swapcase"; "title"; "translate";
    "upper"; "zfill" ].

(** [s.attr] on a string [s] *)
Definition str_getattr (s attr : string) : res pyobj :=
  if bool_decide (attr ∈ str_methods) then Ok (OMethod s attr)
  else Halt (Raised (AttributeError attr)).

(** What arrives at the event loop while it runs: a callback that is
    ready, a call of [stop] on the loop from inside it, the keyboard
    interrupt, and the end of an iteration (the loop has run what was
    ready and waits for more). *)
Inductive loop_input : Type :=
  | Callback
  | StopCall
  | Interrupt
  | NextIteration.

Inductive event : Type :=
  | ELogInfo (msg : string)
  | EOpenLogfile (path : string)
  | EDbConnect (ip : string) (port : Z)
  | EListen (port : Z)
  | ELoopStart
  | ERunCallback
  | ELoopStop.

(** The world of the server: whether the database answers, the ports
    already bound, the file handlers of the module's logger, what will
    arrive at the loop, and the actions so far. *)
Record World : Type := mkWorld {
  db_reachable : bool;
  ports_in_use : gset Z;
  handlers : list string;
  pending : list loop_input;
  trace : list event;
}.

Definition set_ports (f : gset Z → gset Z) (w : World) : World :=
  mkWorld (db_reachable w) (f (ports_in_use w)) (handlers w) (pending w) (trace w).
Definition set_handlers (f : list string → list string) (w : World) : World :=
  mkWorld (db_reachable w) (ports_in_use w) (f (handlers w)) (pending w) (trace w).
Definition set_pending (f : list loop_input → list loop_input) (w : World) : World :=
  mkWorld (db_reachable w) (ports_in_use w) (handlers w) (f (pending w)) (trace w).
Definition set_trace (f : list event → list event) (w : World) : World :=
  mkWorld (db_reachable w) (ports_in_use w) (handlers w) (pending w) (f (trace w)).

Definition emit (e : event) : M World unit := modify (set_trace (λ t, (t ++ [e])%list)).

(** [self.logger.info(msg)] *)
Definition logger_info (msg : string) : M World unit := emit (ELogInfo msg).

(** [logging.FileHandler(x)] opens the file named by [x]; anything but a
    path is a type error. [self.logger.addHandler(handler)] follows. *)
Definition add_file_handler (x : pyobj) : M World unit :=
  match x with
  | OStr path => emit (EOpenLogfile path) ;; modify (set_handlers (λ h, (h ++ [path])%list))
  | OMethod _ _ => raise TypeError
  end.

(** [db_sockets.db_socket_factory] is not among the sources: the call is
    recorded and fails when the database does not answer. *)
Definition db_socket_factory (ip : string) (port : Z) : M World unit :=
  emit (EDbConnect ip port) ;;
  up ← gets db_reachable;
  if (up : bool) then mret tt else raise ConnectionError.

(** [self.app.listen(port)], for an explicit port number (1 to 65535):
    the bind fails when the port is taken. Port 0, for which the system
    picks a free port, and numbers outside the range are not covered. *)
Definition app_listen (port : Z) : M World unit :=
  emit (EListen port) ;;
  busy ← gets (λ w, bool_decide (port ∈ ports_in_use w));
  if (busy : bool) then raise OSError
  else modify (set_ports (λ s, {[port]} ∪ s)).

(** The keyword arguments of the constructor, with their defaults. *)
Record Options : Type := mkOptions {
  port : Z;
  db_ip : string;
  db_port : Z;
  db_username : option string;
  db_password : option string;
  db_type : string;
  db_project_name : string;
  logfile_name : option string;
}.

Definition default_options : Options :=
  mkOptions 8888 "127.0.0.1" 27017 None None "mongo" "molssidb" None.

(** The constructed object. *)
Record DQMServer : Type := mkDQMServer {
  self_port : Z;
}.

(** ["%s" % x] for a name or [None] *)
Definition percent_s (x : option string) : string :=
  match x with
  | Some s => s
  | None => "None"
  end.

Definition DQMServer_init (o : Options) : M World DQMServer :=
  (match logfile_name o with
   | Some name =>
       target ← lift (str_getattr name "logfile");
       add_file_handler target
   | None => mret tt
   end) ;;
  logger_info ("Logfile set to " ++ percent_s (logfile_name o) ++ nl) ;;
  db_socket_factory (db_ip o) (db_port o) ;;
  app_listen (port o) ;;
  logger_info ("DQM Server successfully initialized at https://localhost:"
               ++ pretty (port o) ++ "." ++ nl) ;;
  mret (mkDQMServer (port o)).

(** [self.loop.start()]: the loop serves what arrives. A call of [stop]
    only asks the loop to leave: the callbacks already ready in the same
    iteration are still run, and the loop returns at the end of that
    iteration, leaving what comes later. The interrupt is raised inside the
    loop at once. When nothing is left to arrive and no stop was asked for,
    the loop waits for ever. [stopping] tells whether a stop was asked
    for. *)
Fixpoint loop_run (stopping : bool) (inputs : list loop_input)
    : list event * list loop_input * res unit :=
  match inputs with
  | [] => ([], [], if stopping then Ok tt else Halt Blocked)
  | Callback :: rest =>
      let '(ev, later, r) := loop_run stopping rest in (ERunCallback :: ev, later, r)
  | StopCall :: rest => loop_run true rest
  | Interrupt :: rest => ([], rest, Halt (Raised KeyboardInterrupt))
  | NextIteration :: rest =>
      if stopping then ([], rest, Ok tt) else loop_run false rest
  end.

Definition loop_start : M World unit :=
  λ w, let '(ev, later, r) := loop_run false (pending w) in
       (r, set_pending (λ _, later) (set_trace (λ t, (t ++ ELoopStart :: ev)%list) w)).

(** [DQMServer.stop] *)
Definition stop (self : DQMServer) : M World unit := emit ELoopStop.

(** [try: body except KeyboardInterrupt: handler] *)
Definition try_except_interrupt (body handler : M World unit) : M World unit :=
  λ w, match body w with
       | (Halt (Raised KeyboardInterrupt), w') => handler w'
       | other => other
       end.

(** [DQMServer.start] *)
Definition start (self : DQMServer) : M World unit :=
  logger_info ("DQM Server successfully started. Starting IOLoop." ++ nl) ;;
  try_except_interrupt loop_start (stop self) ;;
  logger_info ("DQM Server stopping gracefully. Stopped IOLoop." ++ nl).

(** The script part of the module: [server = DQMServer()] and
    [server.start()]. *)
Definition dqm_main : M World unit :=
  server ← DQMServer_init default_options;
  start server.

(** A machine on which the database answers and no port is taken; two
    callbacks arrive, then the interrupt (or a call of [stop]), then one
    more callback; on the last machine the iteration ends and a further
    callback arrives later. *)
Definition interrupted_machine : World :=
  mkWorld true ∅ [] [Callback; Callback; Interrupt; Callback] [].

Definition stopped_machine : World :=
  mkWorld true ∅ [] [Callback; Callback; StopCall; Callback] [].

Definition stopped_early_machine : World :=
  mkWorld true ∅ [] [Callback; StopCall; Callback; NextIteration; Callback] [].

End Dqm.

(** * Properties of the command line *)

Module CliProofs.
Import Cli.

Local Open Scope list_scope.
#[local] Set Warnings "-clear-no-such-hyp".

(** Unfolds the monad and the primitives that only record or return. *)
Ltac run :=
  cbv beta iota zeta delta
    [mbind M_bind mbind_M mret M_ret mret_M lift gets modify emit print
     print_str raise sys_exit halt_with path_exists].

(** Two worlds with the same components are equal. *)
Lemma world_eq_proj (w1 w2 : World) :
  dirs w1 = dirs w2 → files w1 = files w2 → argv_vars w1 = argv_vars w2 →
  stdin w1 = stdin w2 → trace w1 = trace w2 → w1 = w2.
Proof. destruct w1, w2; simpl; congruence. Qed.

(** Equality of two worlds written with the setters, component by
    component. *)
Ltac world_eq :=
  apply world_eq_proj; simpl; rewrite <- ?app_assoc; reflexivity.

Lemma trace_remove_tree p w : trace (remove_tree p w) = trace w.
Proof. unfold remove_tree. by case_bool_decide. Qed.

Lemma stdin_remove_tree p w : stdin (remove_tree p w) = stdin w.
Proof. unfold remove_tree. by case_bool_decide. Qed.

(** A path that exists still exists when directories are added and the
    files are the same. *)
Lemma exists_in_grow w w' p :
  dirs w ⊆ dirs w' → files w' = files w →
  exists_in w p = true → exists_in w' p = true.
Proof.
  unfold exists_in. intros Hd ->.
  rewrite !orb_true_iff, !bool_decide_eq_true. set_solver.
Qed.

(** ** How the primitives behave *)

Section Behaves.
Context (P : event → Prop) (Q : halt → Prop).

Lemma behaves_ret {A} (a : A) : behaves P Q (mret a : M World A).
Proof.
  intros w r w' [= <- <-]. split_and!; [|done..].
  exists []. by rewrite app_nil_r.
Qed.

Lemma behaves_bind {A B} (m : M World A) (f : A → M World B) :
  behaves P Q m → (∀ a, behaves P Q (f a)) → behaves P Q (m ≫= f).
Proof.
  intros Hm Hf w r w'. unfold mbind, M_bind, mbind_M.
  destruct (m w) as [[a|h] w1] eqn:E;
    destruct (Hm _ _ _ E) as ((l1 & T1 & F1) & S1 & Q1).
  - intros E2. destruct (Hf a _ _ _ E2) as ((l2 & T2 & F2) & S2 & Q2).
    split_and!; [|congruence|done].
    exists (l1 ++ l2). split; [by rewrite T2, T1, app_assoc|by apply Forall_app].
  - intros [= <- <-]. split_and!; [by exists l1|done|].
    intros h' [= <-]. by apply Q1.
Qed.

Lemma behaves_emit e : P e → behaves P Q (emit e).
Proof.
  intros He w r w' [= <- <-]. split_and!; [|done..].
  exists [e]. split; [done|by constructor].
Qed.

Lemma behaves_halt {A} h : Q h → behaves P Q (halt_with h : M World A).
Proof.
  intros Hh w r w' [= <- <-]. split_and!; [|done|by intros ? [= <-]].
  exists []. by rewrite app_nil_r.
Qed.

Lemma behaves_gets {A} (f : World → A) : behaves P Q (gets f).
Proof.
  intros w r w' [= <- <-]. split_and!; [|done..].
  exists []. by rewrite app_nil_r.
Qed.

Lemma behaves_lift {A} (r : res A) :
  (∀ h, r = Halt h → Q h) → behaves P Q (lift r).
Proof.
  intros Hr w r' w' [= <- <-]. split_and!; [|done..].
  exists []. by rewrite app_nil_r.
Qed.

Lemma behaves_modify f :
  (∀ w, trace (f w) = trace w) → (∀ w, stdin (f w) = stdin w) →
  behaves P Q (modify f).
Proof.
  intros Ht Hs w r w' [= <- <-]. split_and!; [|done..].
  exists []. by rewrite app_nil_r.
Qed.

Lemma behaves_mkdir p :
  P (EMkdir p) → (∀ e, Q (Raised e)) → behaves P Q (mkdir_exist_ok p).
Proof.
  intros HP HQ. unfold mkdir_exist_ok.
  apply behaves_bind; [by apply behaves_emit|intros _].
  apply behaves_bind; [apply behaves_gets|intros []; cbv beta iota].
  { apply behaves_ret. }
  apply behaves_bind; [apply behaves_gets|intros []; cbv beta iota].
  { by apply behaves_halt. }
  apply behaves_bind; [apply behaves_gets|intros []; cbv beta iota].
  { by apply behaves_modify. }
  apply behaves_bind; [apply behaves_gets|intros []; cbv beta iota].
  all: by apply behaves_halt.
Qed.

Lemma behaves_write_text p t :
  P (EOpenTruncate p) → P (EWrite p t) → Q (Raised OSError) →
  behaves P Q (write_text p t).
Proof.
  intros HP1 HP2 HQ. unfold write_text, open_truncate, write_data.
  apply behaves_bind; [|intros _].
  - apply behaves_bind; [apply behaves_gets|intros []; cbv beta iota].
    + by apply behaves_halt.
    + apply behaves_bind; [by apply behaves_emit|intros _].
      by apply behaves_modify.
  - apply behaves_bind; [by apply behaves_emit|intros _].
    by apply behaves_modify.
Qed.

End Behaves.

(** ** Relations kept by every run *)

Section Establishes.
Context (R : World → World → Prop).
Context (R_refl : ∀ w, R w w) (R_trans : ∀ w1 w2 w3, R w1 w2 → R w2 w3 → R w1 w3).

Lemma establishes_ret {A} (a : A) : establishes R (mret a : M World A).
Proof. intros w r w' [= <- <-]. apply R_refl. Qed.

Lemma establishes_bind {A B} (m : M World A) (f : A → M World B) :
  establishes R m → (∀ a, establishes R (f a)) → establishes R (m ≫= f).
Proof.
  intros Hm Hf w r w'. unfold mbind, M_bind, mbind_M.
  destruct (m w) as [[a|h] w1] eqn:E.
  - intros E2. eapply R_trans; [by eapply Hm|by eapply Hf].
  - intros [= <- <-]. by eapply Hm.
Qed.

Lemma establishes_halt {A} h : establishes R (halt_with h : M World A).
Proof. intros w r w' [= <- <-]. apply R_refl. Qed.

Lemma establishes_gets {A} (f : World → A) : establishes R (gets f).
Proof. intros w r w' [= <- <-]. apply R_refl. Qed.

Lemma establishes_lift {A} (r : res A) : establishes R (lift r).
Proof. intros w r' w' [= <- <-]. apply R_refl. Qed.

Lemma establishes_modify f : (∀ w, R w (f w)) → establishes R (modify f).
Proof. intros Hf w r w' [= <- <-]. apply Hf. Qed.

End Establishes.

(** Splits a computation into its primitives, for a relation [R] with
    the proofs [Hr] and [Ht] that it is reflexive and transitive; the goals
    left are those of the primitives that change the world. *)
Ltac split_run R Hr Ht :=
  repeat first
    [ apply (establishes_bind R Ht); [|intros ?]
    | apply (establishes_ret R Hr)
    | apply (establishes_halt R Hr)
    | apply (establishes_gets R Hr)
    | apply (establishes_lift R Hr)
    | apply (establishes_modify R)
    | match goal with
      | |- context [if ?b then _ else _] => destruct b
      | |- context [match ?o with Some _ => _ | None => _ end] => destruct o
      end ].

Lemma keeps_all_refl w : keeps_all w w.
Proof. by split. Qed.

Lemma keeps_all_trans w1 w2 w3 :
  keeps_all w1 w2 → keeps_all w2 w3 → keeps_all w1 w3.
Proof. intros [? ?] [? ?]. split; set_solver. Qed.

Lemma extend_nil w : extend [] w = w.
Proof. apply world_eq_proj; simpl; try done. apply app_nil_r. Qed.

(** What [mkdir] does, seen from outside. *)
Lemma mkdir_exist_ok_run p w r w' :
  mkdir_exist_ok p w = (r, w') →
  files w' = files w ∧ argv_vars w' = argv_vars w ∧ stdin w' = stdin w
  ∧ trace w' = trace w ++ [EMkdir p]
  ∧ dirs w ⊆ dirs w' ∧ dirs w' ⊆ {[p]} ∪ dirs w
  ∧ (∀ h, r = Halt h → dirs w' = dirs w ∧ (p ∉ dirs w) ∧ ∃ e, h = Raised e)
  ∧ (p ∈ dirs w → r = Ok tt ∧ dirs w' = dirs w).
Proof.
  unfold mkdir_exist_ok. run. simpl.
  case_bool_decide as Hd; simpl.
  { intros [= <- <-]. simpl. split_and!; try done; set_solver. }
  case_bool_decide as Hf; simpl.
  { intros [= <- <-]. simpl. split_and!; try done; [set_solver|].
    intros h [= <-]. split_and!; [done..|by eexists]. }
  case_bool_decide as Hp; simpl.
  { intros [= <- <-]. simpl. split_and!; try done; set_solver. }
  case_bool_decide as Hpf; simpl.
  all: intros [= <- <-]; simpl; split_and!; try done; [set_solver|].
  all: intros h [= <-]; split_and!; [done..|by eexists].
Qed.

Lemma exists_in_same w w' p :
  dirs w ⊆ dirs w' → files w' = files w → (p ∈ dirs w' → p ∈ dirs w) →
  exists_in w' p = exists_in w p.
Proof.
  unfold exists_in. intros Hd -> Hp. f_equal.
  apply bool_decide_ext. set_solver.
Qed.

Lemma path_join_ne base name : path_join base name ≠ base.
Proof.
  unfold path_join. induction base as [|c base IH]; [done|].
  intros [= E]. by apply IH.
Qed.

Section Facts.
Context `{Declared}.

Lemma behaves_initialize_postgres P Q c quiet :
  P (EInitializePostgres c quiet) → Q (Raised DatastoreError) →
  behaves P Q (initialize_postgres c quiet).
Proof.
  intros HP HQ. unfold initialize_postgres.
  apply behaves_bind; [by apply behaves_emit|intros _].
  apply behaves_bind; [apply behaves_gets|intros f].
  destruct (postgres_init c f); [by apply behaves_modify|by apply behaves_halt].
Qed.

(** ** [parse_args]: the loop over the parsed options *)

Lemma move_args_app ret l1 l2 :
  move_args ret (l1 ++ l2)
  = match move_args ret l1 with
    | Ok ret' => move_args ret' l2
    | Halt h => Halt h
    end.
Proof.
  revert ret. induction l1 as [|kv l1 IH]; intros ret; [done|].
  rewrite <- app_comm_cons. cbn [move_args].
  destruct (move_arg ret kv); [apply IH|done].
Qed.

(** An option whose value is [None] takes no part in the loop. *)
Lemma move_args_drops_none ret items :
  move_args ret (filter (λ kv, kv.2 ≠ VNone) items) = move_args ret items.
Proof.
  revert ret. induction items as [|[k v] items IH]; intros ret; [done|].
  rewrite filter_cons. case_decide as Hv; cbn [move_args snd] in *.
  - destruct (move_arg ret (k, v)); [apply IH|done].
  - assert (v = VNone) as -> by (destruct v; congruence). apply IH.
Qed.

Lemma routed_nil : routed [] ret0 ∅ ∅.
Proof.
  unfold routed, ret0. split_and!; try by simplify_map_eq.
  all: try (intros ? ? Hin; by apply elem_of_nil in Hin).
  all: intros n d; rewrite !lookup_insert; repeat case_decide; naive_solver.
Qed.

(** One more option keeps the description of the loop state. *)
Lemma routed_snoc items k v ret db fr :
  NoDup (items ++ [(k, v)]).*1 →
  keeps_groups (items ++ [(k, v)]) →
  routed items ret db fr →
  ∃ ret' db' fr',
    move_arg ret (k, v) = Ok ret' ∧ routed (items ++ [(k, v)]) ret' db' fr'.
Proof.
  intros Hnd Hkeep (Hdb & Hfr & Hgr & Hin & Hval & Hdbo & Hfro & Htop).
  rewrite fmap_app, NoDup_app in Hnd. destruct Hnd as (_ & Hfresh & _).
  assert (∀ v1, (k, v1) ∉ items) as Hk.
  { intros v1 Hv1. apply (Hfresh k); [|simpl; set_solver].
    apply list_elem_of_fmap. by exists (k, v1). }
  unfold move_arg. destruct (is_none v) eqn:Hnone.
  { (* the value is None: the round changes nothing *)
    assert (v = VNone) as -> by (by destruct v).
    exists ret, db, fr. split; [done|]. unfold routed. split_and!; try done.
    - intros k1 v1 [?|E]%elem_of_app; [eauto|].
      apply list_elem_of_singleton in E. naive_solver.
    - intros k1 v1 [?|E]%elem_of_app ? ? Huniq.
      + eapply Hval; eauto. intros; eapply Huniq; eauto. set_solver.
      + apply list_elem_of_singleton in E. naive_solver.
    - intros n v1 Hl. destruct (Hdbo _ _ Hl) as (? & k1 & ? & ? & ?).
      split; [done|]. exists k1. set_solver.
    - intros n v1 Hl. destruct (Hfro _ _ Hl) as (? & ? & ?). set_solver.
    - intros n v1 Hl. destruct (Htop _ _ Hl) as (? & ? & ?). set_solver. }
  assert (v ≠ VNone) as Hv by (by destruct v).
  destruct (str_contains "db" k) eqn:Hc.
  { (* moved into the database group *)
    unfold setitem_group. rewrite Hdb.
    eexists _, (<[str_replace "db_" "" k := v]> db), fr. split; [done|].
    unfold routed. split; [by simplify_map_eq|]. split; [by simplify_map_eq|].
    split; [|split; [|split; [|split; [|split]]]].
    - intros n d. rewrite lookup_insert. case_decide; [naive_solver|eauto].
    - intros k1 v1 [?|E]%elem_of_app ? ?.
      + rewrite lookup_insert. case_decide; [done|eauto].
      + apply list_elem_of_singleton in E. injection E as -> ->.
        by rewrite lookup_insert_eq.
    - intros k1 v1 [Hi|E]%elem_of_app ? ? Huniq.
      + rewrite lookup_insert_ne.
        * eapply Hval; eauto. intros; eapply Huniq; eauto. set_solver.
        * intros Heq. assert (k = k1) as <- by (eapply Huniq; eauto; set_solver).
          by eapply Hk.
      + apply list_elem_of_singleton in E. injection E as -> ->.
        by rewrite lookup_insert_eq.
    - intros n v1. rewrite lookup_insert. case_decide as Hn.
      + intros [= <-]. split; [done|]. exists k. set_solver.
      + intros Hl. destruct (Hdbo _ _ Hl) as (? & k1 & ? & ? & ?).
        split; [done|]. exists k1. set_solver.
    - intros n v1 Hl. destruct (Hfro _ _ Hl) as (? & ? & ?). set_solver.
    - intros n v1. rewrite lookup_insert. case_decide; [done|].
      intros Hl. destruct (Htop _ _ Hl) as (? & ? & ?). set_solver. }
  case_bool_decide as Hf.
  { (* moved into the server settings *)
    unfold setitem_group. rewrite Hfr.
    eexists _, db, (<[k := v]> fr). split; [done|].
    unfold routed. split; [by simplify_map_eq|]. split; [by simplify_map_eq|].
    split; [|split; [|split; [|split; [|split]]]].
    - intros n d. rewrite lookup_insert. case_decide; [naive_solver|eauto].
    - intros k1 v1 [?|E]%elem_of_app ? ?; [eauto|].
      apply list_elem_of_singleton in E. congruence.
    - intros k1 v1 [Hi|E]%elem_of_app ? ? Huniq.
      + eapply Hval; eauto. intros; eapply Huniq; eauto. set_solver.
      + apply list_elem_of_singleton in E. congruence.
    - intros n v1 Hl. destruct (Hdbo _ _ Hl) as (? & k1 & ? & ? & ?).
      split; [done|]. exists k1. set_solver.
    - intros n v1. rewrite lookup_insert. case_decide as Hn.
      + intros [= <-]. subst n. set_solver.
      + intros Hl. destruct (Hfro _ _ Hl) as (? & ? & ?). set_solver.
    - intros n v1. rewrite lookup_insert. case_decide; [done|].
      intros Hl. destruct (Htop _ _ Hl) as (? & ? & ?). set_solver. }
  (* kept at the top level *)
  destruct (Hkeep k v) as [Hk1 Hk2]; [set_solver|done..|].
  exists (<[k := Scalar v]> ret), db, fr. split; [done|].
  unfold routed. split; [by simplify_map_eq|]. split; [by simplify_map_eq|].
  split; [|split; [|split; [|split; [|split]]]].
  - intros n d. rewrite lookup_insert. case_decide; [done|eauto].
  - intros k1 v1 [?|E]%elem_of_app ? ?; [eauto|].
    apply list_elem_of_singleton in E. congruence.
  - intros k1 v1 [Hi|E]%elem_of_app ? ? Huniq.
    + eapply Hval; eauto. intros; eapply Huniq; eauto. set_solver.
    + apply list_elem_of_singleton in E. congruence.
  - intros n v1 Hl. destruct (Hdbo _ _ Hl) as (? & k1 & ? & ? & ?).
    split; [done|]. exists k1. set_solver.
  - intros n v1 Hl. destruct (Hfro _ _ Hl) as (? & ? & ?). set_solver.
  - intros n v1. rewrite lookup_insert. case_decide as Hn.
    + intros [= <-]. subst n. set_solver.
    + intros Hl. destruct (Htop _ _ Hl) as (? & ? & ?). set_solver.
Qed.

(** The loop runs to its end on every option table of [argparse]. *)
Lemma move_args_routed items :
  NoDup items.*1 → keeps_groups items →
  ∃ ret db fr, move_args ret0 items = Ok ret ∧ routed items ret db fr.
Proof.
  induction items as [|[k v] items IH] using rev_ind; intros Hnd Hkeep.
  - exists ret0, ∅, ∅. split; [done|apply routed_nil].
  - destruct IH as (ret & db & fr & Hrun & Hr).
    + rewrite fmap_app, NoDup_app in Hnd. tauto.
    + intros k1 v1 Hin. apply Hkeep. set_solver.
    + destruct (routed_snoc _ _ _ _ _ _ Hnd Hkeep Hr) as (ret' & db' & fr' & Hstep & Hr').
      exists ret', db', fr'. split; [|done].
      rewrite move_args_app, Hrun. cbn [move_args]. by rewrite Hstep.
Qed.


(** [replace] strips a leading [db_] and goes on with the rest; a name
    without [db_] is left as it is. *)
Lemma str_replace_db_prefix k :
  str_replace "db_" "" ("db_" +:+ k) = str_replace "db_" "" k.
Proof. by destruct k. Qed.

Lemma str_replace_no_db k :
  str_contains "db_" k = false → str_replace "db_" "" k = k.
Proof.
  unfold str_replace. induction k as [|c k IH]; [done|].
  cbn [str_contains replace_go]. intros [Hp Hk]%orb_false_iff.
  rewrite Hp. f_equal. by apply IH.
Qed.

(** C9: in the loop of [parse_args] over an option table (a dictionary:
    no key twice) that leaves the two groups in place, every option whose
    value is not [None] and whose name contains [db] anywhere is stored in
    the [database] group under its name with the occurrences of [db_]
    removed, and neither in the [fractal] group nor at the top level; it
    carries its own value unless another such option has the same new
    name. Options whose value is [None] are dropped: the loop gives the same
    result without them, and no group and no top-level entry holds [None].
    [parse_args] returns this result when a sub-command was given. *)
Theorem parse_args_routes_db_keys items :
  NoDup items.*1 → keeps_groups items →
  ∃ ret db fr,
    move_args ret0 items = Ok ret
    ∧ ret !! "database" = Some (Group db)
    ∧ ret !! "fractal" = Some (Group fr)
    ∧ (∀ k v, (k, v) ∈ items → v ≠ VNone → str_contains "db" k = true →
         is_Some (db !! str_replace "db_" "" k)
         ∧ fr !! k = None ∧ ret !! k = None
         ∧ ((∀ k' v', (k', v') ∈ items → v' ≠ VNone →
                      str_contains "db" k' = true →
                      str_replace "db_" "" k' = str_replace "db_" "" k → k' = k) →
            db !! str_replace "db_" "" k = Some v))
    ∧ move_args ret0 (filter (λ kv, kv.2 ≠ VNone) items) = Ok ret
    ∧ (∀ n, db !! n ≠ Some VNone)
    ∧ (∀ n, fr !! n ≠ Some VNone)
    ∧ (∀ n, ret !! n ≠ Some (Scalar VNone))
    ∧ (∀ w c, argv_vars w = items → getitem items "cmd" = Ok c → c ≠ VNone →
              parse_args w = (Ok ret, w)).
Proof.
  intros Hnd Hkeep.
  destruct (move_args_routed items Hnd Hkeep)
    as (ret & db & fr & Hrun & Hdb & Hfr & Hgr & Hin & Hval & Hdbo & Hfro & Htop).
  exists ret, db, fr. split_and!; try done.
  - intros k v Hk Hv Hc. split_and!; [by eapply Hin| | |by eapply Hval].
    + destruct (fr !! k) as [v1|] eqn:E; [|done].
      destruct (Hfro _ _ E) as (_ & _ & ?). congruence.
    + destruct (ret !! k) as [[v1|d]|] eqn:E; [| |done].
      * destruct (Htop _ _ E) as (_ & _ & ?). congruence.
      * destruct (Hgr _ _ E) as [-> | ->]; discriminate Hc.
  - by rewrite move_args_drops_none.
  - intros n E. by destruct (Hdbo _ _ E).
  - intros n E. by destruct (Hfro _ _ E).
  - intros n E. by destruct (Htop _ _ E).
  - intros w c Hw Hcmd Hc. unfold parse_args. run.
    rewrite Hw, Hrun, Hcmd. by destruct c.
Qed.


(** ** [main]: looking for the persisted record *)

Lemma main_not_init_missing G args cmd config w :
  args !! "cmd" = Some cmd →
  eq_str cmd "init" = false →
  FractalConfig_new (delete "cmd" args) = Ok config →
  exists_in w (base_path config) = false
  ∨ exists_in w (config_file_path config) = false →
  (exists_in w (base_path config) = false
   ∧ main G (Some args) w
     = (Halt (SysExit 1),
        extend [EPrint (Lit ("Could not find configuration file path: "
                             +:+ base_path config))] w))
  ∨ (exists_in w (base_path config) = true
     ∧ main G (Some args) w
       = (Halt (SysExit 1),
          extend [EPrint (Lit ("Could not find configuration file: "
                               +:+ config_file_path config))] w)).
Proof.
  intros Hcmd Hinit Hcfg Hmiss.
  unfold main, dict_pop. run. rewrite Hcmd. run. rewrite Hcfg, Hinit. simpl.
  destruct (exists_in w (base_path config)) eqn:Hbase; simpl.
  - right. destruct Hmiss as [|Hfile]; [discriminate|].
    rewrite Hfile. simpl. auto.
  - left. auto.
Qed.

(** C7: when [config] or [start] is invoked and the base directory, or the
    configuration file computed from it, does not exist, [main] prints one
    line naming the missing path and exits with status 1; the world is
    otherwise as it was: nothing was read, merged, started or written. *)
Theorem main_missing_configuration G args cmd config w :
  args !! "cmd" = Some (Scalar (VStr cmd)) →
  cmd = "config" ∨ cmd = "start" →
  FractalConfig_new (delete "cmd" args) = Ok config →
  exists_in w (base_path config) = false
  ∨ exists_in w (config_file_path config) = false →
  ∃ missing r,
    main G (Some args) w
      = (r, extend [EPrint (Lit ("Could not find configuration file" +:+ missing))] w)
    ∧ r = Halt (SysExit 1)
    ∧ exit_status r = Some 1%Z
    ∧ (missing = " path: " +:+ base_path config
       ∧ exists_in w (base_path config) = false
       ∨ missing = ": " +:+ config_file_path config
         ∧ exists_in w (config_file_path config) = false).
Proof.
  intros Hcmd Hwhich Hcfg Hmiss.
  assert (eq_str (Scalar (VStr cmd)) "init" = false) as Hinit
    by (by destruct Hwhich as [-> | ->]).
  destruct (main_not_init_missing G _ _ _ w Hcmd Hinit Hcfg Hmiss)
    as [[Hb ->] | [Hb ->]].
  - exists (" path: " +:+ base_path config), (Halt (SysExit 1)). by split_and!; [..|left].
  - exists (": " +:+ config_file_path config), (Halt (SysExit 1)).
    split_and!; [done..|]. right. split; [done|].
    destruct Hmiss as [Hm|Hm]; [congruence|done].
Qed.

(** ** The constructor *)

Lemma validate_group_valid field g :
  valid_entries field g → validate_group field g = Ok g.
Proof.
  intros Hg. unfold validate_group. rewrite bool_decide_eq_true_2.
  - f_equal. apply map_eq. intros k. rewrite fin_maps.map_lookup_imap.
    destruct (g !! k) as [v|] eqn:E; [|done]. simpl. by apply Hg.
  - intros k v E. rewrite (Hg _ _ E). by eexists.
Qed.

Lemma validate_group_entries field g d :
  (∀ k v v', field k v = Some v' → field k v' = Some v') →
  validate_group field g = Ok d → valid_entries field d.
Proof.
  intros Hidem. unfold validate_group. case_bool_decide; [|done].
  intros [= <-] k v'. rewrite fin_maps.map_lookup_imap.
  destruct (g !! k) as [v|]; [|done]. simpl. apply Hidem.
Qed.

Lemma valid_entries_union field a b :
  valid_entries field a → valid_entries field b → valid_entries field (a ∪ b).
Proof.
  intros Ha Hb k v [E|[_ E]]%lookup_union_Some_raw; eauto.
Qed.

(** What the constructor returns holds validated fields only. *)
Lemma FractalConfig_new_valid kw c :
  FractalConfig_new kw = Ok c → valid_config c.
Proof.
  unfold FractalConfig_new. destruct (forbids_extra && has_extra kw); [done|].
  unfold field_base, field_group.
  destruct (kw !! "base_folder") as [[v|]|]; try done.
  - destruct (base_folder_field v) as [s|] eqn:Eb; [|done].
    destruct (kw !! "database") as [[|d]|]; try done.
    + destruct (validate_group database_field d) as [d'|] eqn:Ed; [|done].
      destruct (kw !! "fractal") as [[|f]|]; try done.
      * destruct (validate_group fractal_field f) as [f'|] eqn:Ef; [|done].
        intros [= <-]. split_and!; simpl.
        -- intros ? [= <-]. by eapply base_folder_field_valid.
        -- intros ? [= <-]. by eapply validate_group_entries, Ed; apply database_field_valid.
        -- intros ? [= <-]. by eapply validate_group_entries, Ef; apply fractal_field_valid.
      * intros [= <-]. split_and!; simpl; [|  |done].
        -- intros ? [= <-]. by eapply base_folder_field_valid.
        -- intros ? [= <-]. by eapply validate_group_entries, Ed; apply database_field_valid.
    + destruct (kw !! "fractal") as [[|f]|]; try done.
      * destruct (validate_group fractal_field f) as [f'|] eqn:Ef; [|done].
        intros [= <-]. split_and!; simpl; [|done|].
        -- intros ? [= <-]. by eapply base_folder_field_valid.
        -- intros ? [= <-]. by eapply validate_group_entries, Ef; apply fractal_field_valid.
      * intros [= <-]. split_and!; simpl; [|done..].
        intros ? [= <-]. by eapply base_folder_field_valid.
  - destruct (kw !! "database") as [[|d]|]; try done.
    + destruct (validate_group database_field d) as [d'|] eqn:Ed; [|done].
      destruct (kw !! "fractal") as [[|f]|]; try done.
      * destruct (validate_group fractal_field f) as [f'|] eqn:Ef; [|done].
        intros [= <-]. split_and!; simpl; [done| |].
        -- intros ? [= <-]. by eapply validate_group_entries, Ed; apply database_field_valid.
        -- intros ? [= <-]. by eapply validate_group_entries, Ef; apply fractal_field_valid.
      * intros [= <-]. split_and!; simpl; [done| |done].
        intros ? [= <-]. by eapply validate_group_entries, Ed; apply database_field_valid.
    + destruct (kw !! "fractal") as [[|f]|]; try done.
      * destruct (validate_group fractal_field f) as [f'|] eqn:Ef; [|done].
        intros [= <-]. split_and!; simpl; [done..|].
        intros ? [= <-]. by eapply validate_group_entries, Ef; apply fractal_field_valid.
      * intros [= <-]. by split_and!.
Qed.

(** The constructor fails with a validation error only. *)
Lemma FractalConfig_new_halt kw h :
  FractalConfig_new kw = Halt h → h = Raised ValidationError.
Proof.
  assert (∀ e h', field_base e = Halt h' → h' = Raised ValidationError) as Hb.
  { intros [[v|]|] h'; simpl; try done; [|by intros [= <-]].
    destruct (base_folder_field v); [done|by intros [= <-]]. }
  assert (∀ field e h', field_group field e = Halt h' → h' = Raised ValidationError)
    as Hg.
  { intros field [[|d]|] h'; simpl; try done; [by intros [= <-]|].
    unfold validate_group. case_bool_decide; [done|by intros [= <-]]. }
  unfold FractalConfig_new. destruct (forbids_extra && has_extra kw); [by intros [= <-]|].
  destruct (field_base (kw !! "base_folder")) eqn:E1;
    destruct (field_group database_field (kw !! "database")) eqn:E2;
    destruct (field_group fractal_field (kw !! "fractal")) eqn:E3;
    try done; intros [= <-]; eauto.
Qed.

Lemma valid_base_folder c :
  valid_config c → base_folder_field (VStr (base_folder c)) = Some (base_folder c).
Proof.
  intros (Hb & _ & _). unfold base_folder.
  destruct (base_folder_set c) as [s|]; simpl; [by apply Hb|].
  apply default_base_folder_valid.
Qed.

Lemma valid_database c :
  valid_config c → valid_entries database_field (database c).
Proof.
  intros (_ & Hd & _). unfold database. apply valid_entries_union.
  - destruct (database_set c) as [g|]; simpl; [by apply Hd|]. by intros k v.
  - intros k v. apply database_defaults_valid.
Qed.

Lemma valid_fractal c :
  valid_config c → valid_entries fractal_field (fractal c).
Proof.
  intros (_ & _ & Hf). unfold fractal. apply valid_entries_union.
  - destruct (fractal_set c) as [g|]; simpl; [by apply Hf|]. by intros k v.
  - intros k v. apply fractal_defaults_valid.
Qed.

(** The constructor on a dictionary with the three declared keys and
    validated contents: line 160. *)
Lemma FractalConfig_new_declared b d f f0 :
  base_folder_field (VStr b) = Some b →
  valid_entries database_field d → valid_entries fractal_field f →
  FractalConfig_new
    (<["fractal" := Group f]>
       (delete "fractal"
          (<["base_folder" := Scalar (VStr b)]>
             (<["database" := Group d]> (<["fractal" := Group f0]> ∅)))))
  = Ok (mkFractalConfig (Some b) (Some d) (Some f)).
Proof.
  intros Hb Hd Hf. unfold FractalConfig_new.
  assert (has_extra
            (<["fractal" := Group f]>
               (delete "fractal"
                  (<["base_folder" := Scalar (VStr b)]>
                     (<["database" := Group d]> (<["fractal" := Group f0]> ∅)))))
          = false) as ->.
  { unfold has_extra, declared_keywords. rewrite bool_decide_eq_true_2; [done|].
    rewrite dom_insert, dom_delete, !dom_insert, dom_empty. set_solver. }
  rewrite andb_false_r. unfold field_base, field_group.
  rewrite lookup_insert_eq.
  rewrite !(lookup_insert_ne _ "fractal") by done.
  rewrite !(lookup_delete_ne _ "fractal") by done.
  rewrite lookup_insert_eq, lookup_insert_ne, lookup_insert_eq by done.
  rewrite Hb.
  by rewrite (validate_group_valid _ _ Hd), (validate_group_valid _ _ Hf).
Qed.

(** ** [main]: merging the record with the command line *)

(** Reading and merging leave the world as it is. *)
Lemma merge_files_world config w r w' :
  merge_files config w = (r, w') → w' = w.
Proof.
  unfold merge_files, read_text, dict_pop. run.
  destruct (files w !! config_file_path config) as [t|]; [|by intros [= _ <-]].
  destruct (yaml_load t) as [l|]; [|by intros [= _ <-]].
  destruct (unpack_keywords l) as [kw|]; [|by intros [= _ <-]].
  destruct (FractalConfig_new kw) as [fc|]; [|by intros [= _ <-]].
  destruct (dict_skip_defaults config !! "fractal"); [|by intros [= _ <-]].
  destruct (dict fc !! "fractal"); [|by intros [= _ <-]].
  destruct (unpack2 _ _); [|by intros [= _ <-]].
  destruct (FractalConfig_new _); by intros [= _ <-].
Qed.

Lemma union_defaults (a d : gmap string pyval) : (a ∪ d) ∪ d = a ∪ d.
Proof. by rewrite <- (assoc_L (∪)), (idemp_L (∪)). Qed.

Lemma dict_skip_defaults_fractal config :
  dict_skip_defaults config !! "fractal" = Group <$> fractal_set config.
Proof.
  unfold dict_skip_defaults, set_opt.
  destruct (base_folder_set config), (database_set config), (fractal_set config);
    by simplify_map_eq.
Qed.

(** The merged object: base directory and database group of the file, and
    the group of the file laid over the explicit options. *)
Lemma merge_files_result options config w kw fc cli :
  FractalConfig_new options = Ok config →
  files w !! config_file_path config = Some (YamlDump kw) →
  FractalConfig_new kw = Ok fc →
  fractal_set config = Some cli →
  merge_files config w
    = (Ok (mkFractalConfig (Some (base_folder fc)) (Some (database fc))
                           (Some (fractal fc ∪ cli))), w).
Proof.
  intros Hcfg Hfile Hfc Hcli.
  apply FractalConfig_new_valid in Hcfg as (_ & _ & Hvc).
  apply FractalConfig_new_valid in Hfc as Hvf.
  unfold merge_files, read_text, dict_pop. run.
  rewrite Hfile. simpl. rewrite Hfc.
  rewrite dict_skip_defaults_fractal, Hcli. simpl.
  unfold dict. rewrite lookup_insert_ne, lookup_insert_ne, lookup_insert_eq by done.
  simpl.
  rewrite FractalConfig_new_declared; [done|by apply valid_base_folder
    |by apply valid_database|].
  apply valid_entries_union; [by apply valid_fractal|by apply Hvc].
Qed.

(** C1, as the code has it: when a persisted record exists and the command
    line gave server settings ([config] is the object line 143 built from
    the options), the merge succeeds; every server-settings field the
    record holds (it holds all of them, defaults included) keeps the value
    of the record, also when the command line supplied another one; the
    database group and the base directory are those of the record. *)
Theorem merge_keeps_persisted_fractal options config w kw fc cli :
  FractalConfig_new options = Ok config →
  files w !! config_file_path config = Some (YamlDump kw) →
  FractalConfig_new kw = Ok fc →
  fractal_set config = Some cli →
  ∃ merged,
    merge_files config w = (Ok merged, w)
    ∧ (∀ k v_file v_cli,
         fractal fc !! k = Some v_file → cli !! k = Some v_cli →
         fractal merged !! k = Some v_file)
    ∧ database merged = database fc
    ∧ base_folder merged = base_folder fc.
Proof.
  intros Hcfg Hfile Hfc Hcli. eexists. split; [by eapply merge_files_result|].
  unfold fractal at 2, database at 1, base_folder at 1. simpl.
  split; [|split; [apply union_defaults|done]].
  intros k v_file v_cli Hk _.
  apply lookup_union_Some_l, lookup_union_Some_l, Hk.
Qed.

(** An option of the command line reaches the merged settings only for a
    field the record does not hold. *)
Lemma merge_takes_cli_when_absent options config w kw fc cli k v :
  FractalConfig_new options = Ok config →
  files w !! config_file_path config = Some (YamlDump kw) →
  FractalConfig_new kw = Ok fc →
  fractal_set config = Some cli →
  fractal fc !! k = None → cli !! k = Some v →
  ∃ merged, merge_files config w = (Ok merged, w) ∧ fractal merged !! k = Some v.
Proof.
  intros Hcfg Hfile Hfc Hcli Hk Hv. eexists. split; [by eapply merge_files_result|].
  unfold fractal at 1. simpl. apply lookup_union_Some_l.
  rewrite lookup_union_r; done.
Qed.

(** C5, as the code has it: [start] with a valid persisted record merges
    the configuration and then raises a bare [Exception]; the world is
    unchanged, so no server was built, no handler installed and no event
    loop entered. *)
Theorem main_start_raises G args config w kw fc cli :
  args !! "cmd" = Some (Scalar (VStr "start")) →
  FractalConfig_new (delete "cmd" args) = Ok config →
  exists_in w (base_path config) = true →
  files w !! config_file_path config = Some (YamlDump kw) →
  FractalConfig_new kw = Ok fc →
  fractal_set config = Some cli →
  main G (Some args) w = (Halt (Raised Exception_), w)
  ∧ exit_status (main G (Some args) w).1 = Some 1%Z.
Proof.
  intros Hcmd Hcfg Hbase Hfile Hfc Hcli.
  assert (main G (Some args) w = (Halt (Raised Exception_), w)) as Hrun.
  { unfold main, dict_pop. run. rewrite Hcmd. run. rewrite Hcfg. simpl.
    rewrite Hbase. simpl. unfold exists_in. rewrite Hfile.
    rewrite (bool_decide_eq_true_2 _ (mk_is_Some _ _ eq_refl)), orb_true_r. simpl.
    by rewrite (merge_files_result _ _ _ _ _ _ Hcfg Hfile Hfc Hcli). }
  by rewrite Hrun.
Qed.

(** ** [server_config] *)

(** C6, as the code has it: the [config] operation prints the dump of the
    whole configuration, in which the database password stands as it is
    stored. *)
Theorem config_show_prints_secret config w secret :
  database config !! "password" = Some (VStr secret) →
  ∃ shown group,
    server_config config w
      = (Ok tt, extend [EPrint (Lit ("Displaying QCFractal configuration:" +:+ nl));
                        EPrint (YamlDump shown)] w)
    ∧ shown !! "database" = Some (Group group)
    ∧ group !! "password" = Some (VStr secret).
Proof.
  intros Hsecret. exists (dict config), (database config).
  split; [|split; [|done]].
  - unfold server_config. run. f_equal. world_eq.
  - unfold dict. by simplify_map_eq.
Qed.

(** [server_config] records two prints. *)
Lemma server_config_run config w :
  server_config config w
  = (Ok tt, extend [EPrint (Lit ("Displaying QCFractal configuration:" +:+ nl));
                    EPrint (YamlDump (dict config))] w).
Proof. unfold server_config. run. f_equal. world_eq. Qed.

(** ** [main]: where the options come from *)

(** [parse_args] changes nothing but the trace, and only to print the
    help before it exits. *)
Lemma parse_args_run w r w' :
  parse_args w = (r, w') →
  (∃ args, r = Ok args ∧ w' = w)
  ∨ (∃ e, r = Halt (Raised e) ∧ w' = w)
  ∨ (r = Halt (SysExit 1) ∧ w' = extend [EPrintHelp] w
     ∧ getitem (argv_vars w) "cmd" = Ok VNone).
Proof.
  assert (∀ ret items h, move_args ret items = Halt h → ∃ e, h = Raised e) as Hmove.
  { intros ret items. revert ret. induction items as [|[k v] items IH]; intros ret h; [done|].
    cbn [move_args]. destruct (move_arg ret (k, v)) as [ret'|h'] eqn:E; [apply IH|].
    intros [= <-]. revert E. unfold move_arg, setitem_group.
    repeat case_match; try done; intros [= <-]; by eexists. }
  assert (∀ items k h, getitem items k = Halt h → ∃ e, h = Raised e) as Hget.
  { intros items k. induction items as [|[k' v] items IH]; intros h; simpl.
    - intros [= <-]. by eexists.
    - destruct (String.eqb k' k); [done|apply IH]. }
  unfold parse_args. run.
  destruct (move_args ret0 (argv_vars w)) as [ret|h] eqn:E1.
  2:{ intros [= <- <-]. right. left. destruct (Hmove _ _ _ E1) as [e ->]. by exists e. }
  destruct (getitem (argv_vars w) "cmd") as [c|h] eqn:E2.
  2:{ intros [= <- <-]. right. left. destruct (Hget _ _ _ E2) as [e ->]. by exists e. }
  destruct (is_none c) eqn:E3; simpl.
  - intros [= <- <-]. right. right. split_and!; [done..|]. by destruct c.
  - intros [= <- <-]. left. by exists ret.
Qed.

(** With the options taken from the command line, [main] prints them and
    goes on as if they had been passed in. *)
Lemma main_from_command_line G w a :
  parse_args w = (Ok a, w) →
  main G None w = main G (Some a) (extend [EPrint (Repr a)] w).
Proof. intros Hp. unfold main. run. by rewrite Hp. Qed.

(** Every run of [main] is a run on options passed in, after at most one
    print, unless [parse_args] has ended it. *)
Lemma main_options G given w r w' :
  main G given w = (r, w') →
  (∃ args pre,
     options_of given w args
     ∧ main G (Some args) (extend pre w) = (r, w')
     ∧ Forall is_print pre)
  ∨ (given = None ∧ ∃ h, r = Halt h ∧ parse_args w = (Halt h, w')).
Proof.
  destruct given as [args|].
  - intros Hrun. left. exists args, []. rewrite extend_nil.
    split_and!; [by left|done|constructor].
  - destruct (parse_args w) as [r0 w0] eqn:Hp.
    destruct (parse_args_run _ _ _ Hp) as [(args & -> & ->)|[(e & -> & ->)|(-> & -> & _)]].
    + rewrite (main_from_command_line _ _ _ Hp). intros Hrun. left.
      exists args, [EPrint (Repr args)]. split_and!; [by right|done|].
      repeat constructor. by eexists.
    + unfold main. run. rewrite Hp. intros [= <- <-]. right.
      split; [done|]. by eexists.
    + unfold main. run. rewrite Hp. intros [= <- <-]. right.
      split; [done|]. by eexists.
Qed.

(** ** [server_init] *)

(** As the module is written, [server_init] never gets past line 80: the
    name [args] is not bound. It has then printed its first line and made
    sure of the base directory, nothing else. *)
Lemma server_init_as_written config w :
  ∃ e w',
    server_init module_globals config w = (Halt (Raised e), w')
    ∧ files w' = files w ∧ stdin w' = stdin w ∧ argv_vars w' = argv_vars w
    ∧ dirs w ⊆ dirs w' ∧ dirs w' ⊆ {[base_path config]} ∪ dirs w
    ∧ trace w' = trace w ++ [EPrint (Lit "Initializing QCFractal configuration.");
                             EMkdir (base_path config)]
    ∧ (base_path config ∈ dirs w → e = NameError "args" ∧ dirs w' = dirs w).
Proof.
  unfold server_init. run.
  destruct (mkdir_exist_ok (base_path config) _) as [r1 w1] eqn:Emk.
  apply mkdir_exist_ok_run in Emk as (Hf & Ha & Hs & Ht & Hd1 & Hd2 & Hh & Hin).
  simpl in *. destruct r1 as [[]|h].
  - unfold module_globals. rewrite lookup_empty. eexists _, _.
    split; [reflexivity|]. split_and!; try done.
    + by rewrite Ht, <- app_assoc.
    + intros Hb. split; [done|]. by apply Hin.
  - destruct (Hh h eq_refl) as (Hd & Hn & e & ->). eexists _, _.
    split; [reflexivity|]. split_and!; try done.
    by rewrite Ht, <- app_assoc.
Qed.

(** [init] through [main], as the module is written: an exception ends the
    run, either the validation error of line 143 or what
    [server_init_as_written] tells. *)
Lemma main_init_as_written args w r w' :
  args !! "cmd" = Some (Scalar (VStr "init")) →
  main module_globals (Some args) w = (r, w') →
  (∃ e, r = Halt (Raised e))
  ∧ files w' = files w ∧ stdin w' = stdin w ∧ argv_vars w' = argv_vars w
  ∧ dirs w ⊆ dirs w'
  ∧ (w' = w
     ∨ ∃ config, FractalConfig_new (delete "cmd" args) = Ok config
         ∧ dirs w' ⊆ {[base_path config]} ∪ dirs w
         ∧ trace w' = trace w ++ [EPrint (Lit "Initializing QCFractal configuration.");
                                  EMkdir (base_path config)]).
Proof.
  intros Hcmd. unfold main, dict_pop. run. rewrite Hcmd. simpl.
  destruct (FractalConfig_new (delete "cmd" args)) as [config|h] eqn:Hcfg; simpl.
  2:{ apply FractalConfig_new_halt in Hcfg as ->. intros [= <- <-].
      split_and!; [by eexists|done..|by left]. }
  destruct (server_init_as_written config w)
    as (e & w1 & -> & ? & ? & ? & ? & ? & ? & _).
  intros [= <- <-]. split_and!; [by eexists|done..|]. right. by exists config.
Qed.

(** C3, as the code has it: [init] on a base directory that holds a
    configuration file never reaches the test of the overwrite flag.
    [server_init] looks the name [args] up among the globals of the module,
    which binds none: the run ends with [NameError], exit status 1 and not
    2, after the first line was printed. The files and the directories are
    as they were. *)
Theorem init_existing_record_name_error args config w :
  args !! "cmd" = Some (Scalar (VStr "init")) →
  FractalConfig_new (delete "cmd" args) = Ok config →
  exists_in w (config_file_path config) = true →
  base_path config ∈ dirs w →
  ∃ r w',
    main module_globals (Some args) w = (r, w')
    ∧ r = Halt (Raised (NameError "args"))
    ∧ exit_status r = Some 1%Z
    ∧ files w' = files w
    ∧ dirs w' = dirs w
    ∧ trace w' = trace w ++ [EPrint (Lit "Initializing QCFractal configuration.");
                             EMkdir (base_path config)].
Proof.
  intros Hcmd Hcfg _ Hbase.
  destruct (server_init_as_written config w)
    as (e & w1 & Hrun & ? & ? & ? & ? & ? & ? & He).
  destruct (He Hbase) as [-> ?]. eexists _, w1. split.
  - unfold main, dict_pop. run. rewrite Hcmd. run. rewrite Hcfg. simpl. exact Hrun.
  - done.
Qed.

(** What lines 83 to 88 do once the name [args] is bound to a dictionary
    without a true [overwrite]: the refusal, with exit status 2. *)
Lemma server_init_refuses G a config w :
  G !! "args" = Some a →
  truthy (default (Scalar (VBool false)) (a !! "overwrite")) = false →
  exists_in w (config_file_path config) = true →
  base_path config ∈ dirs w →
  server_init G config w
    = (Halt (SysExit 2),
       extend [EPrint (Lit "Initializing QCFractal configuration.");
               EMkdir (base_path config);
               EPrint (Lit "");
               EPrint (Lit ("QCFractal configuration file already exists, to overwrite use '--overwrite' "
                 +:+ "or use the `qcfractal-server config` command line to alter settings."))] w).
Proof.
  intros HG Hover Hfile Hbase. unfold server_init, mkdir_exist_ok. run. simpl.
  rewrite (bool_decide_eq_true_2 _ Hbase). simpl. rewrite HG. simpl.
  match goal with
  | |- context [exists_in ?w1 (config_file_path config)] =>
      rewrite (exists_in_grow w w1 _ (reflexivity _) eq_refl Hfile)
  end.
  rewrite Hover. simpl. f_equal. world_eq.
Qed.

Lemma setitem_password config :
  setitem_group (dict config) "database" "password" (VStr stars)
  = Ok (<["database" := Group (<["password" := VStr stars]> (database config))]> (dict config)).
Proof. unfold setitem_group, dict. by simplify_map_eq. Qed.

(** C2: [init] with the overwrite flag aborts whatever the operator is
    about to type, the sentinel or anything else. As the module is written
    every run of [init], with options passed in or taken from the command
    line, ends with an exception (exit status 1): the database is not shut
    down, nothing is removed, the files (the persisted record among them)
    are as they were, every directory is still there, and the pending input
    is not read. *)
Theorem init_overwrite_aborts_untouched given args w typed r w' :
  options_of given w args →
  args !! "cmd" = Some (Scalar (VStr "init")) →
  stdin w = typed →
  main module_globals given w = (r, w') →
  (∃ e, r = Halt (Raised e))
  ∧ exit_status r = Some 1%Z
  ∧ files w' = files w
  ∧ dirs w ⊆ dirs w'
  ∧ stdin w' = typed
  ∧ ∃ later, trace w' = trace w ++ later ∧ Forall harmless later.
Proof.
  intros Hopt Hcmd Htyped Hrun.
  assert (∃ pre, main module_globals (Some args) (extend pre w) = (r, w')
                 ∧ Forall is_print pre) as (pre & Hrun' & Hpre).
  { destruct Hopt as [->|[-> Hp]].
    - exists []. by rewrite extend_nil.
    - exists [EPrint (Repr args)]. rewrite <- (main_from_command_line _ _ _ Hp).
      split; [done|]. repeat constructor. by eexists. }
  destruct (main_init_as_written _ _ _ _ Hcmd Hrun')
    as ([e ->] & Hf & Hs & _ & Hd & Ht).
  split_and!; [by eexists|done|done|done|by rewrite Hs|].
  assert (Forall harmless pre) as Hpre'.
  { eapply Forall_impl; [exact Hpre|]. intros ? [t ->]. by split. }
  destruct Ht as [->|(config & _ & _ & Ht)].
  - exists pre. by split.
  - eexists. split; [rewrite Ht; simpl; by rewrite <- app_assoc|].
    apply Forall_app. split; [done|]. by repeat constructor.
Qed.

(** ** Where the data directory can be removed *)

(** Names the part of [server_init] from line 113 on, and shows that it
    records no removal, removes nothing and never leaves through
    [sys.exit]. *)
Tactic Notation "name_tail" ident(tail) ident(Htail) ident(Hkeeps) :=
  match goal with
  | |- context [mbind ?k (lift (setitem_group ?d ?g ?kk ?v))] =>
      set (tail := mbind k (lift (setitem_group d g kk v)));
      assert (behaves not_rmtree not_sys_exit tail) as Htail;
      [ subst tail; rewrite setitem_password;
        apply (behaves_bind _ _ (lift (Ok _))); [by apply behaves_lift|intros ?];
        unfold print_str, print;
        repeat (apply behaves_bind;
                [first [by apply behaves_emit
                       |by apply behaves_mkdir
                       |by apply behaves_initialize_postgres
                       |by apply behaves_write_text]|intros _]);
        by apply behaves_emit
      | assert (establishes keeps_all tail) as Hkeeps;
        [ subst tail; rewrite setitem_password;
          unfold mkdir_exist_ok, initialize_postgres, write_text, open_truncate,
            write_data, print_str, print, emit, raise;
          split_run keeps_all keeps_all_refl keeps_all_trans;
          intros ?; split; simpl; try done;
          rewrite ?dom_insert, ?dom_union; set_solver
        | ] ]
  end.

(** In a run of [server_init], a removal is recorded at most once, right
    after the shutdown of the database, and only when the overwrite flag
    was seen and the configuration file was found; in any other run
    nothing is removed. *)
Lemma server_init_removal_guarded G config w r w' :
  server_init G config w = (r, w') →
  ∃ later,
    trace w' = trace w ++ later
    ∧ (Forall not_rmtree later ∧ keeps_all w w'
       ∨ ∃ a before after,
           G !! "args" = Some a
           ∧ truthy (default (Scalar (VBool false)) (a !! "overwrite")) = true
           ∧ exists_in w (config_file_path config) = true
           ∧ later = before ++ [EShutdownPostgres config;
                                ERmtree (database_path config)] ++ after
           ∧ Forall not_rmtree before ∧ Forall not_rmtree after).
Proof.
  unfold server_init. name_tail settle Hsettle Hkeeps.
  unfold rmtree, shutdown_postgres. run.
  destruct (mkdir_exist_ok (base_path config) _) as [r1 w1] eqn:Emk.
  apply mkdir_exist_ok_run in Emk as (Hf & Ha & Hs & Ht & Hd1 & Hd2 & Hh & Hin).
  simpl in Hf, Ha, Hs, Ht, Hd1, Hd2, Hh, Hin.
  assert (keeps_all w w1) as Hk1 by (split; [done|by rewrite Hf]).
  destruct r1 as [[]|h].
  2:{ intros [= <- <-]. eexists. split; [rewrite Ht; by rewrite <- app_assoc|].
      left. split; [|done]. by repeat constructor. }
  destruct (G !! "args") as [a|] eqn:HG; simpl.
  2:{ intros [= <- <-]. eexists. split; [rewrite Ht; by rewrite <- app_assoc|].
      left. split; [|done]. by repeat constructor. }
  assert (exists_in w1 (config_file_path config) = exists_in w (config_file_path config))
    as ->.
  { apply exists_in_same; [done..|]. intros Hc. apply Hd2 in Hc.
    pose proof (path_join_ne (base_path config) config_file_name).
    unfold config_file_path in *. set_solver. }
  destruct (exists_in w (config_file_path config)) eqn:Hfile; simpl.
  2:{ destruct (settle w1) as [r2 w2] eqn:E.
      destruct (Hsettle _ _ _ E) as ((later & Hl & Hfl) & _ & _).
      intros [= <- <-]. eexists. split.
      - rewrite Hl, Ht, <- !app_assoc. reflexivity.
      - left. split.
        + simpl. by repeat constructor.
        + eapply keeps_all_trans; [exact Hk1|]. by eapply Hkeeps. }
  destruct (truthy _) eqn:Hover; simpl.
  2:{ intros [= <- <-]. eexists. split; [simpl; rewrite Ht; by rewrite <- !app_assoc|].
      left. split; [by repeat constructor|]. by destruct Hk1. }
  match goal with |- context [settle ?w2] => destruct (settle w2) as [r2 w2'] eqn:E end.
  destruct (Hsettle _ _ _ E) as ((later & Hl & Hfl) & _ & _).
  intros [= <- <-]. eexists. split.
  - rewrite Hl, trace_remove_tree. simpl. rewrite Ht, <- !app_assoc. reflexivity.
  - right. exists a, (before_shutdown config), later.
    split_and!; [done..|reflexivity| |done].
    unfold before_shutdown. by repeat constructor.
Qed.

(** Every sub-command but [init] leaves the world as it is, prints
    apart. *)
Lemma main_other_commands G args cmd w r w' :
  args !! "cmd" = Some cmd →
  eq_str cmd "init" = false →
  main G (Some args) w = (r, w') →
  dirs w' = dirs w ∧ files w' = files w ∧ stdin w' = stdin w
  ∧ ∃ later, trace w' = trace w ++ later ∧ Forall is_print later.
Proof.
  intros Hcmd Hinit. unfold main, dict_pop. run. rewrite Hcmd. simpl.
  destruct (FractalConfig_new (delete "cmd" args)) as [config|h] eqn:Hcfg; simpl.
  2:{ intros [= <- <-]. split_and!; [done..|]. exists []. by rewrite app_nil_r. }
  rewrite Hinit. simpl.
  destruct (exists_in w (base_path config)); simpl.
  2:{ intros [= <- <-]. split_and!; [done..|]. eexists. split; [reflexivity|].
      repeat constructor. by eexists. }
  destruct (exists_in w (config_file_path config)); simpl.
  2:{ intros [= <- <-]. split_and!; [done..|]. eexists. split; [reflexivity|].
      repeat constructor. by eexists. }
  destruct (merge_files config w) as [r1 w1] eqn:Hm.
  apply merge_files_world in Hm as Hw. subst w1.
  destruct r1 as [merged|h].
  2:{ intros [= <- <-]. split_and!; [done..|]. exists []. by rewrite app_nil_r. }
  destruct (eq_str cmd "config").
  - rewrite server_config_run. intros [= <- <-]. split_and!; [done..|].
    eexists. split; [reflexivity|]. repeat constructor; by eexists.
  - intros [= <- <-]. split_and!; [done..|]. exists []. by rewrite app_nil_r.
Qed.

Lemma prints_not_rmtree l : Forall is_print l → Forall not_rmtree l.
Proof. intros Hp. eapply Forall_impl; [exact Hp|]. by intros ? [t ->] ?. Qed.

(** The same for a run of [main] on given options. *)
Lemma main_removal_guarded G args w r w' :
  main G (Some args) w = (r, w') →
  ∃ later,
    trace w' = trace w ++ later
    ∧ (Forall not_rmtree later ∧ keeps_all w w'
       ∨ ∃ cmd config a before after,
           args !! "cmd" = Some cmd ∧ eq_str cmd "init" = true
           ∧ FractalConfig_new (delete "cmd" args) = Ok config
           ∧ G !! "args" = Some a
           ∧ truthy (default (Scalar (VBool false)) (a !! "overwrite")) = true
           ∧ exists_in w (config_file_path config) = true
           ∧ later = before ++ [EShutdownPostgres config;
                                ERmtree (database_path config)] ++ after
           ∧ Forall not_rmtree before ∧ Forall not_rmtree after).
Proof.
  destruct (args !! "cmd") as [cmd|] eqn:Hcmd.
  2:{ unfold main, dict_pop. run. rewrite Hcmd. intros [= <- <-].
      exists []. rewrite app_nil_r. split; [done|]. left.
      split; [constructor|apply keeps_all_refl]. }
  destruct (eq_str cmd "init") eqn:Hinit.
  - unfold main, dict_pop. run. rewrite Hcmd. simpl.
    destruct (FractalConfig_new (delete "cmd" args)) as [config|h] eqn:Hcfg; simpl.
    2:{ intros [= <- <-]. exists []. rewrite app_nil_r. split; [done|]. left.
        split; [constructor|apply keeps_all_refl]. }
    rewrite Hinit. simpl. intros Hrun.
    destruct (server_init_removal_guarded _ _ _ _ _ Hrun)
      as (later & Hl & [Hleft | (a & before & after & ? & ? & ? & ? & ? & ?)]).
    + exists later. by split; [|left].
    + exists later. split; [done|]. right.
      exists cmd, config, a, before, after. by split_and!.
  - intros Hrun.
    destruct (main_other_commands _ _ _ _ _ _ Hcmd Hinit Hrun)
      as (Hd & Hf & _ & later & Hl & Hp).
    exists later. split; [done|]. left. split; [by apply prints_not_rmtree|].
    split; [by rewrite Hd|by rewrite Hf].
Qed.

(** C4: a removal of the data directory is recorded only by [init], only
    when the overwrite flag was seen and the configuration file found, and
    always right after the shutdown of the database; in every other run
    of [main], whatever the sub-command and wherever the options come
    from, no directory and no file is removed. As the module is written
    (no name [args] bound), that other case is the only one: nothing is
    ever removed. *)
Theorem data_directory_removal_guarded G given w r w' :
  main G given w = (r, w') →
  ∃ later,
    trace w' = trace w ++ later
    ∧ (Forall not_rmtree later ∧ keeps_all w w'
       ∨ ∃ args cmd config a before after,
           options_of given w args
           ∧ args !! "cmd" = Some cmd ∧ eq_str cmd "init" = true
           ∧ FractalConfig_new (delete "cmd" args) = Ok config
           ∧ G !! "args" = Some a
           ∧ truthy (default (Scalar (VBool false)) (a !! "overwrite")) = true
           ∧ exists_in w (config_file_path config) = true
           ∧ later = before ++ [EShutdownPostgres config;
                                ERmtree (database_path config)] ++ after
           ∧ Forall not_rmtree before ∧ Forall not_rmtree after)
    ∧ (G !! "args" = None → Forall not_rmtree later ∧ keeps_all w w').
Proof.
  intros Hrun.
  assert (∃ later,
    trace w' = trace w ++ later
    ∧ (Forall not_rmtree later ∧ keeps_all w w'
       ∨ ∃ args cmd config a before after,
           options_of given w args
           ∧ args !! "cmd" = Some cmd ∧ eq_str cmd "init" = true
           ∧ FractalConfig_new (delete "cmd" args) = Ok config
           ∧ G !! "args" = Some a
           ∧ truthy (default (Scalar (VBool false)) (a !! "overwrite")) = true
           ∧ exists_in w (config_file_path config) = true
           ∧ later = before ++ [EShutdownPostgres config;
                                ERmtree (database_path config)] ++ after
           ∧ Forall not_rmtree before ∧ Forall not_rmtree after))
    as (later & Hl & Hcases).
  { destruct (main_options _ _ _ _ _ Hrun)
      as [(args & pre & Hopt & Hrun' & Hpre)|(-> & h & -> & Hp)].
    - destruct (main_removal_guarded _ _ _ _ _ Hrun')
        as (later & Hl & [[Hn Hk] | (cmd & config & a & before & after
                                      & ? & ? & ? & ? & ? & Hex & -> & ? & ?)]).
      + exists (pre ++ later). split; [simpl in Hl; by rewrite Hl, app_assoc|].
        left. split; [|exact Hk]. apply Forall_app. split; [by apply prints_not_rmtree|done].
      + exists (pre ++ before ++ [EShutdownPostgres config; ERmtree (database_path config)]
                  ++ after).
        split; [simpl in Hl; by rewrite Hl, <- !app_assoc|]. right.
        exists args, cmd, config, a, (pre ++ before), after.
        split_and!;
          [done|done|done|done|done|done|exact Hex|by rewrite <- app_assoc
          |apply Forall_app; split; [by apply prints_not_rmtree|done]|done].
    - destruct (parse_args_run _ _ _ Hp) as [(? & ? & _)|[(e & _ & ->)|(_ & -> & _)]];
        [done| |].
      + exists []. rewrite app_nil_r. split; [done|]. left.
        split; [constructor|apply keeps_all_refl].
      + exists [EPrintHelp]. split; [reflexivity|]. left.
        split; [|exact (keeps_all_refl w)].
        apply List.Forall_cons; [intros ?; discriminate|constructor]. }
  exists later. split; [done|]. split; [done|].
  intros HG. destruct Hcases as [?|(? & ? & ? & a & ? & ? & _ & _ & _ & _ & Ha & _)]; [done|].
  congruence.
Qed.

(** ** Writing the configuration file *)

Lemma write_text_states p new w :
  p ∉ dirs w →
  states_through (write_text_steps p new) w
  = [w;
     set_files (λ f, <[p := Lit ""]> f) (extend [EOpenTruncate p] w);
     set_files (λ f, <[p := new]> (<[p := Lit ""]> f))
       (extend [EOpenTruncate p; EWrite p new] w)].
Proof.
  intros Hp. unfold states_through, write_text_steps, open_truncate, write_data.
  run. simpl. rewrite (bool_decide_eq_false_2 _ Hp).
  apply (f_equal2 (λ a b, [w; a; b])); world_eq.
Qed.

Lemma write_text_run p new w :
  p ∉ dirs w →
  write_text p new w
  = (Ok tt, set_files (λ f, <[p := new]> (<[p := Lit ""]> f))
              (extend [EOpenTruncate p; EWrite p new] w)).
Proof.
  intros Hp. unfold write_text, open_truncate, write_data.
  run. simpl. rewrite (bool_decide_eq_false_2 _ Hp). f_equal. world_eq.
Qed.

(** C8, amended: [write_text] writes in place. It passes through three
    worlds: the one it starts in, with the old content at the path; the one
    after the truncating open, with an empty file at the path; the one
    after the write, with the new content. Only the content at the path
    changes: no other file is created, and nothing is renamed. *)
Theorem write_text_truncates_then_writes p new w :
  p ∉ dirs w →
  ∃ w1 w2,
    states_through (write_text_steps p new) w = [w; w1; w2]
    ∧ write_text p new w = (Ok tt, w2)
    ∧ files w1 = <[p := Lit ""]> (files w)
    ∧ files w2 = <[p := new]> (files w)
    ∧ dirs w1 = dirs w ∧ dirs w2 = dirs w.
Proof.
  intros Hp. eexists _, _.
  split; [by apply write_text_states|].
  split; [by apply write_text_run|].
  simpl. by rewrite insert_insert_eq.
Qed.

End Facts.



(** ** The statements on a concrete installation *)

Abbreviation cfg_file := "/srv/qcf/qcfractal_config.yaml" (only parsing).

(** [start --port 8888] on a record with port 7777: the merged port is
    7777. *)
Lemma merge_keeps_persisted_fractal_witness :
  ∃ merged,
    merge_files (H := example_declared) start_config example_world
      = (Ok merged, example_world)
    ∧ fractal_set start_config = Some (<["port" := VInt 8888]> ∅)
    ∧ fractal (H := example_declared) merged !! "port" = Some (VInt 7777).
Proof.
  destruct (merge_keeps_persisted_fractal (H := example_declared)
              (delete "cmd" start_args) start_config example_world example_record
              record_config (<["port" := VInt 8888]> ∅))
    as (merged & Hrun & Hkeep & _); [vm_compute; reflexivity..|].
  exists merged. split; [exact Hrun|]. split; [reflexivity|].
  apply (Hkeep "port" (VInt 7777) (VInt 8888)); vm_compute; reflexivity.
Defined.

(** [qcfractal-server init --overwrite --base-folder /srv/qcf] on the
    initialised directory, the operator about to type [no]: the keyword
    [overwrite] fails the validation of line 143, nothing was touched. *)
Lemma init_overwrite_aborts_untouched_witness :
  ∃ w',
    main (H := example_declared) module_globals None overwrite_world
      = (Halt (Raised ValidationError), w')
    ∧ files w' = files overwrite_world
    ∧ dirs overwrite_world ⊆ dirs w'
    ∧ stdin w' = ["no"]
    ∧ ∃ later, trace w' = trace overwrite_world ++ later ∧ Forall harmless later.
Proof.
  assert ((main (H := example_declared) module_globals None overwrite_world).1
          = Halt (Raised ValidationError)) as E by (vm_compute; reflexivity).
  destruct (init_overwrite_aborts_untouched (H := example_declared) None overwrite_args
              overwrite_world ["no"] (Halt (Raised ValidationError))
              (main (H := example_declared) module_globals None overwrite_world).2)
    as (_ & _ & Hf & Hd & Hs & Ht).
  - right. split; [reflexivity|]. vm_compute. reflexivity.
  - reflexivity.
  - reflexivity.
  - rewrite <- E. apply surjective_pairing.
  - eexists. split; [rewrite <- E; apply surjective_pairing|].
    split; [exact Hf|]. split; [exact Hd|]. split; [exact Hs|exact Ht].
Defined.

(** The same invocation once its options pass the constructor, as in a
    call of [main] without the keyword [overwrite]: the run ends at line 80,
    after the first print, with the data in place. *)
Example init_call_stops_at_line_80 :
  let run := main (H := example_declared) module_globals (Some init_keywords)
                  example_world in
  run.1 = Halt (Raised (NameError "args"))
  ∧ files run.2 = files example_world
  ∧ trace run.2 = [EPrint (Lit "Initializing QCFractal configuration.");
                   EMkdir "/srv/qcf"].
Proof. cbv zeta. apply (bool_decide_unpack _). vm_compute. exact I. Qed.

(** [main] called for [init] on the initialised directory, with options
    the constructor accepts. *)
Lemma init_existing_record_name_error_witness :
  ∃ r w',
    main (H := example_declared) module_globals (Some init_keywords) example_world
      = (r, w')
    ∧ r = Halt (Raised (NameError "args"))
    ∧ exit_status r = Some 1%Z
    ∧ files w' = files example_world
    ∧ dirs w' = dirs example_world
    ∧ trace w' = [EPrint (Lit "Initializing QCFractal configuration.");
                  EMkdir "/srv/qcf"].
Proof.
  apply (init_existing_record_name_error (H := example_declared)
           init_keywords init_config example_world).
  - vm_compute; reflexivity.
  - vm_compute; reflexivity.
  - vm_compute; reflexivity.
  - apply (bool_decide_unpack _). vm_compute. exact I.
Defined.

(** From the command line the option table always carries [overwrite],
    which the constructor of the example refuses: [init] without the flag
    ends at line 143, with status 1 as well. *)
Example init_command_line_validation_error :
  main (H := example_declared) module_globals (Some (init_args false)) example_world
  = (Halt (Raised ValidationError), example_world).
Proof. vm_compute. reflexivity. Qed.

(** With the name [args] bound, the same call is refused with status 2
    and the files are as they were. *)
Example init_refused_when_args_bound :
  let run := main (H := example_declared) {[ "args" := init_args false ]}
                  (Some init_keywords) example_world in
  run.1 = Halt (SysExit 2) ∧ files run.2 = files example_world.
Proof. cbv zeta. apply (bool_decide_unpack _). vm_compute. exact I. Qed.

(** What lines 96 to 101 would do if the name [args] were bound and
    carried the flag: the shutdown and the removal, with the input of the
    operator unread. *)
Example overwrite_path_when_args_bound :
  let run := main (H := example_declared) {[ "args" := init_args true ]}
                  (Some init_keywords) example_world in
  stdin example_world = ["no"]
  ∧ stdin run.2 = ["no"]
  ∧ trace run.2 !! 10%nat = Some (EShutdownPostgres init_config)
  ∧ trace run.2 !! 11%nat = Some (ERmtree "/srv/qcf/postgres").
Proof. vm_compute. split_and!; reflexivity. Qed.

(** [qcfractal-server init --overwrite] from the command line, as the
    module is written: nothing is removed. *)
Lemma data_directory_removal_guarded_witness :
  ∃ later,
    trace (main (H := example_declared) module_globals None overwrite_world).2
      = trace overwrite_world ++ later
    ∧ Forall not_rmtree later
    ∧ keeps_all overwrite_world
        (main (H := example_declared) module_globals None overwrite_world).2.
Proof.
  destruct (data_directory_removal_guarded (H := example_declared) module_globals
              None overwrite_world
              (main (H := example_declared) module_globals None overwrite_world).1
              (main (H := example_declared) module_globals None overwrite_world).2
              (surjective_pairing _))
    as (later & Hl & _ & Hnone).
  exists later. split; [exact Hl|]. apply Hnone. reflexivity.
Defined.

(** [start] on the initialised directory. *)
Lemma main_start_raises_witness :
  main (H := example_declared) module_globals (Some start_args) example_world
    = (Halt (Raised Exception_), example_world)
  ∧ exit_status (main (H := example_declared) module_globals (Some start_args)
                      example_world).1 = Some 1%Z.
Proof.
  apply (main_start_raises (H := example_declared) module_globals start_args
           start_config example_world example_record record_config
           (<["port" := VInt 8888]> ∅)); vm_compute; reflexivity.
Defined.

(** [config] shows the password of the record. *)
Lemma config_show_prints_secret_witness :
  ∃ shown group,
    server_config (H := example_declared) record_config example_world
      = (Ok tt, extend [EPrint (Lit ("Displaying QCFractal configuration:" +:+ nl));
                        EPrint (YamlDump shown)] example_world)
    ∧ shown !! "database" = Some (Group group)
    ∧ group !! "password" = Some (VStr "hunter2").
Proof.
  apply (config_show_prints_secret (H := example_declared) record_config
           example_world "hunter2"); vm_compute; reflexivity.
Defined.

(** The same through [main]: the second line printed by
    [qcfractal-server config] is the dump of a dictionary whose database
    password is [hunter2]. *)
Example config_prints_password_through_main :
  let run := main (H := example_declared) module_globals (Some config_args)
                  example_world in
  run.1 = Ok tt
  ∧ ∃ shown, trace run.2 !! 1%nat = Some (EPrint (YamlDump shown))
             ∧ shown !! "database"
               = Some (Group (<["host" := VStr "db.example"]>
                               (<["password" := VStr "hunter2"]> ∅))).
Proof. vm_compute. split; [reflexivity|]. eexists. split; reflexivity. Qed.

(** [init] on a fresh directory, with the name [args] bound: the dump that
    is printed (action 3) carries the stars, the file that is written
    carries the password. *)
Example init_echo_redacts_password :
  let run := server_init (H := example_declared) {[ "args" := init_args false ]}
                         init_config fresh_world in
  run.1 = Ok tt
  ∧ trace run.2 !! 3%nat
    = Some (EPrint (YamlDump
        (<["database" := Group (<["password" := VStr stars]>
                                  (database (H := example_declared) init_config))]>
           (dict (H := example_declared) init_config))))
  ∧ files run.2 !! cfg_file
    = Some (YamlDump (dict (H := example_declared) init_config))
  ∧ database (H := example_declared) init_config !! "password" = Some (VStr "s3cret").
Proof. vm_compute. split_and!; reflexivity. Qed.

(** Options that fail validation end [main] at line 143, before the
    directory is looked at. *)
Example main_invalid_port :
  main (H := example_declared) module_globals (Some bad_port_args) fresh_world
  = (Halt (Raised ValidationError), fresh_world).
Proof. vm_compute. reflexivity. Qed.

(** [config] on a directory without a configuration file. *)
Lemma main_missing_configuration_witness :
  ∃ missing r,
    main (H := example_declared) module_globals (Some config_args) fresh_world
      = (r, extend [EPrint (Lit ("Could not find configuration file" +:+ missing))]
              fresh_world)
    ∧ r = Halt (SysExit 1)
    ∧ exit_status r = Some 1%Z
    ∧ (missing = " path: " +:+ "/srv/qcf"
       ∧ exists_in fresh_world "/srv/qcf" = false
       ∨ missing = ": " +:+ cfg_file
         ∧ exists_in fresh_world cfg_file = false).
Proof.
  apply (main_missing_configuration (H := example_declared) module_globals
           config_args "config"
           (mkFractalConfig (Some "/srv/qcf") (Some ∅) (Some ∅)) fresh_world).
  - vm_compute; reflexivity.
  - by left.
  - vm_compute; reflexivity.
  - right. vm_compute; reflexivity.
Defined.


(** Writing a new record over the persisted one: no directory is in the
    way, and the three worlds are as stated. *)
Lemma write_text_truncates_then_writes_witness :
  (cfg_file ∉ dirs example_world)
  ∧ ∃ w1 w2,
      states_through
        (write_text_steps cfg_file (YamlDump (dict (H := example_declared) init_config)))
        example_world = [example_world; w1; w2]
      ∧ files w1 !! cfg_file = Some (Lit "")
      ∧ files w2 !! cfg_file
        = Some (YamlDump (dict (H := example_declared) init_config)).
Proof.
  assert (cfg_file ∉ dirs example_world) as Hp
    by (apply (bool_decide_unpack _); vm_compute; exact I).
  split; [exact Hp|].
  destruct (write_text_truncates_then_writes cfg_file
              (YamlDump (dict (H := example_declared) init_config))
              example_world Hp)
    as (w1 & w2 & Hst & _ & Hf1 & Hf2 & _).
  exists w1, w2. split; [exact Hst|]. rewrite Hf1, Hf2.
  split; apply lookup_insert_eq.
Defined.

(** C8 fails as stated: between the open and the write, the
    configuration file holds neither the old record nor the new one. *)
Lemma write_text_not_atomic :
  ¬ atomic_replace cfg_file (YamlDump (dict (H := example_declared) init_config))
      example_world.
Proof.
  intros Hatomic.
  assert (cfg_file ∉ dirs example_world) as Hp
    by (apply (bool_decide_unpack _); vm_compute; exact I).
  unfold atomic_replace in Hatomic. rewrite (write_text_states _ _ _ Hp) in Hatomic.
  destruct (Hatomic (set_files (λ f, <[cfg_file := Lit ""]> f)
                       (extend [EOpenTruncate cfg_file] example_world))) as [E|E].
  - apply list_elem_of_further, list_elem_of_here.
  - vm_compute in E. discriminate E.
  - vm_compute in E. discriminate E.
Qed.

Lemma example_vars_keep_groups : keeps_groups (H := example_declared) example_vars.
Proof.
  intros k v Hin _ _ _. unfold example_vars in Hin.
  repeat (apply elem_of_cons in Hin as [[= -> ->]|Hin]; [by split|]).
  by apply elem_of_nil in Hin.
Qed.

(** On the example table [db_port] is stored as [port], and [rdbms], a
    field of the server settings without the [db_] prefix, under its own
    name, both in the database group; [db_host], which is [None], is
    nowhere. *)
Lemma parse_args_routes_db_keys_witness :
  NoDup example_vars.*1
  ∧ ∃ ret db fr,
      move_args (H := example_declared) ret0 example_vars = Ok ret
      ∧ ret !! "database" = Some (Group db)
      ∧ ret !! "fractal" = Some (Group fr)
      ∧ is_Some (db !! "port") ∧ is_Some (db !! "rdbms")
      ∧ fr !! "db_port" = None ∧ ret !! "rdbms" = None
      ∧ db !! "host" ≠ Some VNone.
Proof.
  assert (NoDup example_vars.*1) as Hnd
    by (apply (bool_decide_unpack _); vm_compute; exact I).
  split; [exact Hnd|].
  destruct (parse_args_routes_db_keys (H := example_declared) example_vars Hnd
              example_vars_keep_groups)
    as (ret & db & fr & Hrun & Hdb & Hfr & Hin & _ & Hnone & _).
  exists ret, db, fr. split; [exact Hrun|]. split; [exact Hdb|]. split; [exact Hfr|].
  destruct (Hin "db_port" (VInt 5432)) as (Hp & Hfp & _);
    [unfold example_vars; set_solver|done|reflexivity|].
  destruct (Hin "rdbms" (VStr "postgres")) as (Hr & _ & Htr & _);
    [unfold example_vars; set_solver|done|reflexivity|].
  split; [exact Hp|]. split; [exact Hr|]. split; [exact Hfp|]. split; [exact Htr|].
  apply Hnone.
Defined.

(** What the loop returns on that table, computed. *)
Example move_args_example :
  move_args (H := example_declared) ret0 example_vars
  = Ok (<["cmd" := Scalar (VStr "init")]>
       (<["overwrite" := Scalar (VBool false)]>
       (<["base_folder" := Scalar (VStr "/srv/qcf")]>
       (<["database" := Group (<["port" := VInt 5432]> (<["rdbms" := VStr "postgres"]> ∅))]>
       (<["fractal" := Group (<["port" := VInt 7777]> ∅)]> ∅))))).
Proof. vm_compute. reflexivity. Qed.

(** Why the table must leave the groups in place: an option called
    [database] replaces the group by a string, and the next database option
    fails on it. *)
Example move_args_group_overwritten :
  move_args (H := example_declared) ret0
    [("database", VStr "qcf"); ("db_port", VInt 5432)]
  = Halt (Raised TypeError).
Proof. vm_compute. reflexivity. Qed.

(** One pass, left to right: removing [db_] can leave a [db_] behind. *)
Example str_replace_single_pass : str_replace "db_" "" "ddb_b_x" = "db_x".
Proof. reflexivity. Qed.

End CliProofs.

(** * Properties of the DQM server shell *)

Module DqmProofs.
Import Dqm.

Local Open Scope list_scope.

Ltac run :=
  cbv beta iota zeta delta
    [mbind M_bind mbind_M mret M_ret mret_M lift gets modify emit
     logger_info raise halt_with].

(** A string has no attribute [logfile]. *)
Lemma str_has_no_logfile name :
  str_getattr name "logfile" = Halt (Raised (AttributeError "logfile")).
Proof. reflexivity. Qed.

(** C10: with a log file name, the constructor stops at the attribute
    access of line 36 with [AttributeError] and the world is as it was: no
    handler, no database connection, no listener. Without one, it attaches
    no file handler and, when the database answers and the port is free,
    returns the server after connecting and listening. *)
Theorem logfile_name_attribute_error o w :
  (∀ name, logfile_name o = Some name →
     DQMServer_init o w = (Halt (Raised (AttributeError "logfile")), w))
  ∧ (logfile_name o = None → db_reachable w = true → port o ∉ ports_in_use w →
     ∃ server w',
       DQMServer_init o w = (Ok server, w')
       ∧ self_port server = port o
       ∧ handlers w' = handlers w
       ∧ trace w' = trace w ++
           [ELogInfo ("Logfile set to None" +:+ nl);
            EDbConnect (db_ip o) (db_port o);
            EListen (port o);
            ELogInfo ("DQM Server successfully initialized at https://localhost:"
                      +:+ pretty (port o) +:+ "." +:+ nl)]).
Proof.
  split.
  - intros name Hname. unfold DQMServer_init. rewrite Hname.
    run. by rewrite str_has_no_logfile.
  - intros Hnone Hdb Hport. unfold DQMServer_init, db_socket_factory, app_listen.
    rewrite Hnone. run. simpl. rewrite Hdb. simpl.
    rewrite (bool_decide_eq_false_2 _ Hport). simpl.
    eexists _, _. split; [reflexivity|]. simpl.
    split_and!; [done..|]. by rewrite <- !app_assoc.
Qed.

(** ** The event loop *)

Lemma loop_run_callbacks stopping n rest_inputs :
  loop_run stopping (replicate n Callback ++ rest_inputs)
  = let '(ev, later, r) := loop_run stopping rest_inputs in
    (replicate n ERunCallback ++ ev, later, r).
Proof.
  induction n as [|n IH]; simpl.
  - by destruct (loop_run stopping rest_inputs) as [[??]?].
  - rewrite IH. by destruct (loop_run stopping rest_inputs) as [[??]?].
Qed.

(** [start] serves the loop until the interrupt arrives, stops the loop
    and returns. *)
Lemma start_returns_after_interrupt self w n later :
  pending w = replicate n Callback ++ Interrupt :: later →
  ∃ w',
    start self w = (Ok tt, w')
    ∧ pending w' = later
    ∧ trace w' = trace w ++
        [ELogInfo ("DQM Server successfully started. Starting IOLoop." +:+ nl);
         ELoopStart] ++ replicate n ERunCallback ++
        [ELoopStop;
         ELogInfo ("DQM Server stopping gracefully. Stopped IOLoop." +:+ nl)].
Proof.
  intros Hp. unfold start, try_except_interrupt, loop_start, stop. run. simpl.
  rewrite Hp, loop_run_callbacks. simpl.
  eexists. split; [reflexivity|]. simpl. split; [done|].
  rewrite <- !app_assoc. simpl. by rewrite <- !app_assoc.
Qed.

(** With nothing but callbacks to come, [start] does not return. *)
Lemma start_blocks_without_stop self w n :
  pending w = replicate n Callback →
  (start self w).1 = Halt Blocked.
Proof.
  intros Hp. unfold start, try_except_interrupt, loop_start, stop. run. simpl.
  rewrite Hp, <- (app_nil_r (replicate n Callback)), loop_run_callbacks. done.
Qed.

(** ** On a concrete machine *)

Lemma logfile_name_attribute_error_witness :
  let with_name :=
    mkOptions 8888 "127.0.0.1" 27017 None None "mongo" "molssidb" (Some "server.log") in
  let w := mkWorld true ∅ [] [] [] in
  DQMServer_init with_name w = (Halt (Raised (AttributeError "logfile")), w)
  ∧ ∃ server w',
      DQMServer_init default_options w = (Ok server, w')
      ∧ self_port server = 8888%Z
      ∧ handlers w' = [].
Proof.
  intros with_name w. split.
  - apply (proj1 (logfile_name_attribute_error with_name w) "server.log").
    reflexivity.
  - destruct (proj2 (logfile_name_attribute_error default_options w))
      as (server & w' & Hrun & Hport & Hh & _);
      [reflexivity|reflexivity|apply (bool_decide_unpack _); vm_compute; exact I|].
    exists server, w'. split; [exact Hrun|]. split; [exact Hport|exact Hh].
Defined.

End DqmProofs.

(** * Further properties of the command line *)

Module CliExtra.
Import Cli CliProofs.

Local Open Scope list_scope.
#[local] Set Warnings "-clear-no-such-hyp".

(** ** Strings *)

Lemma prefix_empty s : String.prefix "" s = true.
Proof. by destruct s. Qed.

Lemma prefix_one a c s :
  String.prefix (String a "") (String c s) = bool_decide (a = c).
Proof.
  simpl. destruct (ascii_dec a c) as [->|Hne].
  - by rewrite prefix_empty, bool_decide_eq_true_2.
  - by rewrite bool_decide_eq_false_2.
Qed.

Lemma append_one c s : String c "" +:+ s = String c s.
Proof. reflexivity. Qed.

(** Replacing one character by another, on a string without the second
    one, is undone by the converse replacement. *)
Lemma replace_char_back a b s :
  a ≠ b →
  str_contains (String b "") s = false →
  str_replace (String b "") (String a "") (str_replace (String a "") (String b "") s) = s.
Proof.
  intros Hab. unfold str_replace. induction s as [|c s IH]; [done|].
  cbn [str_contains]. rewrite prefix_one. intros [Hc Hs]%orb_false_iff.
  apply bool_decide_eq_false in Hc.
  cbn [replace_go]. rewrite prefix_one. case_bool_decide as Hac.
  - subst c. cbn [String.length Nat.pred]. rewrite append_one.
    cbn [replace_go]. rewrite prefix_one, bool_decide_eq_true_2 by done.
    cbn [String.length Nat.pred]. rewrite append_one. f_equal. by apply IH.
  - cbn [replace_go]. rewrite prefix_one, bool_decide_eq_false_2 by done.
    f_equal. by apply IH.
Qed.

Lemma replace_char_app a b s1 s2 :
  str_replace (String a "") (String b "") (s1 +:+ s2)
  = str_replace (String a "") (String b "") s1
    +:+ str_replace (String a "") (String b "") s2.
Proof.
  unfold str_replace. induction s1 as [|c s1 IH]; [done|].
  change (String c s1 +:+ s2) with (String c (s1 +:+ s2)).
  cbn [replace_go]. rewrite !prefix_one.
  case_bool_decide; cbn [String.length Nat.pred]; rewrite ?append_one, IH; reflexivity.
Qed.

(** A field name that does not begin with an underscore keeps its first
    character under the replacement, so [lstrip] takes nothing from it. *)
Lemma lstrip_replaced f :
  String.prefix "_" f = false → str_contains "-" f = false →
  lstrip_dash (str_replace "_" "-" f) = str_replace "_" "-" f.
Proof.
  destruct f as [|c f]; [done|]. unfold str_replace.
  rewrite prefix_one. intros Hc. apply bool_decide_eq_false in Hc.
  cbn [str_contains]. rewrite prefix_one. intros [Hd _]%orb_false_iff.
  apply bool_decide_eq_false in Hd.
  cbn [replace_go]. rewrite prefix_one, bool_decide_eq_false_2 by done.
  cbn [lstrip_dash]. destruct c as [[] [] [] [] [] [] [] []]; try done.
Qed.

(** The key under which [argparse] files the option of a database field,
    and of a field of the server settings. *)
Lemma dest_of_db_option f :
  str_contains "-" f = false → argparse_dest (db_cli_name f) = "db_" +:+ f.
Proof.
  intros Hf. unfold argparse_dest, db_cli_name.
  change (lstrip_dash ("--db-" +:+ str_replace "_" "-" f))
    with ("db-" +:+ str_replace "_" "-" f).
  rewrite replace_char_app, replace_char_back by done.
  reflexivity.
Qed.

Lemma dest_of_server_option f :
  String.prefix "_" f = false → str_contains "-" f = false →
  argparse_dest (server_cli_name f) = f.
Proof.
  intros Hu Hf. unfold argparse_dest, server_cli_name.
  change (lstrip_dash ("--" +:+ str_replace "_" "-" f))
    with (lstrip_dash (str_replace "_" "-" f)).
  rewrite lstrip_replaced by done. by apply replace_char_back.
Qed.

(** ** Relations kept by every run *)

Lemma same_files_refl keep w : same_files keep w w.
Proof. by intros q. Qed.

Lemma same_files_trans keep w1 w2 w3 :
  same_files keep w1 w2 → same_files keep w2 w3 → same_files keep w1 w3.
Proof. intros H12 H23 q Hq. by rewrite H23, H12. Qed.

Ltac unfold_init :=
  unfold server_init, mkdir_exist_ok, rmtree, shutdown_postgres,
    initialize_postgres, write_text, open_truncate, write_data,
    print_str, print, emit, path_exists, raise, sys_exit.

(** Names the part of [server_init] from line 113 on. *)
Tactic Notation "name_settle" ident(settle) :=
  match goal with
  | |- context [mbind ?k (lift (setitem_group ?d ?g ?kk ?v))] =>
      set (settle := mbind k (lift (setitem_group d g kk v)))
  end.

Lemma bind_lift_ok {A B} (a : A) (f : A → M World B) :
  (lift (Ok a) ≫= f) = f a.
Proof. reflexivity. Qed.

Lemma files_remove_tree_outside p w q :
  under p q = false → files (remove_tree p w) !! q = files w !! q.
Proof.
  intros Hq. unfold remove_tree. case_bool_decide; [|done]. simpl.
  destruct (files w !! q) as [t|] eqn:E.
  - apply map_lookup_filter_Some. split; [done|]. simpl. rewrite Hq. exact I.
  - apply map_lookup_filter_None. left. done.
Qed.

Lemma files_postgres_outside p (data f : gmap string text) q :
  under p q = false →
  (filter (λ kv, under p kv.1) data ∪ f) !! q = f !! q.
Proof.
  intros Hq. apply lookup_union_r, map_lookup_filter_None.
  right. intros t _. simpl. rewrite Hq. simpl. tauto.
Qed.

Lemma files_remove_tree_inside p w q :
  p ∈ dirs w → under p q = true → files (remove_tree p w) !! q = None.
Proof.
  intros Hp Hq. unfold remove_tree. rewrite bool_decide_eq_true_2 by done. simpl.
  apply map_lookup_filter_None. right. intros t _. simpl. rewrite Hq. simpl. tauto.
Qed.

Lemma exists_in_false w p :
  exists_in w p = false ↔ (p ∉ dirs w) ∧ files w !! p = None.
Proof.
  unfold exists_in. rewrite orb_false_iff, !bool_decide_eq_false.
  rewrite <- eq_None_not_Some. done.
Qed.

Lemma union_absorbed (m cli : gmap string pyval) :
  (∀ k, is_Some (cli !! k) → is_Some (m !! k)) → m ∪ cli = m.
Proof.
  intros Hsub. apply map_eq. intros k.
  destruct (m !! k) as [v|] eqn:E.
  - by erewrite lookup_union_Some_l.
  - rewrite lookup_union_r by done.
    destruct (cli !! k) eqn:E2; [|done].
    destruct (Hsub k) as [? ?]; [by eexists|congruence].
Qed.

Section Facts.
Context `{Declared}.

(** ** [parse_args]: from the option strings to the groups *)

Lemma is_none_false v : v ≠ VNone → is_none v = false.
Proof. by destruct v. Qed.

Lemma contains_db_prefixed f : str_contains "db" ("db_" +:+ f) = true.
Proof. reflexivity. Qed.

(** X4: the option of a database field comes back under the name of the
    field. For a field name without a dash and without [db_] in it, the
    option string of line 25 gives the key [db_] followed by the name in the
    table of [argparse], and a round of the loop over a value that is not
    [None] stores the value in the database group under the name of the
    field. *)
Theorem db_option_round_trip f v ret db :
  str_contains "-" f = false → str_contains "db_" f = false → v ≠ VNone →
  ret !! "database" = Some (Group db) →
  argparse_dest (db_cli_name f) = "db_" +:+ f
  ∧ move_arg ret (argparse_dest (db_cli_name f), v)
    = Ok (<["database" := Group (<[f := v]> db)]> ret).
Proof.
  intros Hdash Hdb Hv Hret. rewrite dest_of_db_option by done. split; [done|].
  unfold move_arg. rewrite is_none_false, contains_db_prefixed by done.
  unfold setitem_group. rewrite Hret.
  by rewrite str_replace_db_prefix, str_replace_no_db.
Qed.

(** X5: the option of a field of the server settings comes back under
    the name of the field. For a declared field whose name has no dash, does
    not begin with an underscore and does not contain [db], the option
    string of lines 30 and 40 gives the name itself as key, and a round of
    the loop over a value that is not [None] stores the value in the
    [fractal] group under that name. *)
Theorem server_option_round_trip f v ret fr :
  f ∈ server_field_names →
  String.prefix "_" f = false → str_contains "-" f = false →
  str_contains "db" f = false → v ≠ VNone →
  ret !! "fractal" = Some (Group fr) →
  argparse_dest (server_cli_name f) = f
  ∧ move_arg ret (argparse_dest (server_cli_name f), v)
    = Ok (<["fractal" := Group (<[f := v]> fr)]> ret).
Proof.
  intros Hf Hu Hdash Hdb Hv Hret. rewrite dest_of_server_option by done.
  split; [done|].
  unfold move_arg. rewrite is_none_false, Hdb by done.
  rewrite bool_decide_eq_true_2 by done.
  unfold setitem_group. by rewrite Hret.
Qed.

Lemma placed_nil : placed [] ret0.
Proof.
  unfold placed, ret0. split_and!.
  - exists ∅. by simplify_map_eq.
  - exists ∅. split; [by simplify_map_eq|]. intros ? ? Hin. by apply elem_of_nil in Hin.
  - intros ? ? Hin. by apply elem_of_nil in Hin.
Qed.

Lemma placed_snoc items k v ret :
  NoDup (items ++ [(k, v)]).*1 →
  keeps_groups (items ++ [(k, v)]) →
  placed items ret →
  ∃ ret', move_arg ret (k, v) = Ok ret' ∧ placed (items ++ [(k, v)]) ret'.
Proof.
  intros Hnd Hkeep ([db Hdb] & (fr & Hfr & Hin) & Htop).
  rewrite fmap_app, NoDup_app in Hnd. destruct Hnd as (_ & Hfresh & _).
  assert (∀ v1, (k, v1) ∉ items) as Hk.
  { intros v1 Hv1. apply (Hfresh k); [|simpl; set_solver].
    apply list_elem_of_fmap. by exists (k, v1). }
  assert (∀ k1 v1, (k1, v1) ∈ items → v1 ≠ VNone → str_contains "db" k1 = false →
            k1 ∉ server_field_names → k1 ≠ "database" ∧ k1 ≠ "fractal") as Hkeep'.
  { intros k1 v1 ?. apply Hkeep. set_solver. }
  unfold move_arg. destruct (is_none v) eqn:Hnone.
  { assert (v = VNone) as -> by (by destruct v).
    exists ret. split; [done|]. split_and!; [by exists db| |].
    - exists fr. split; [done|].
      intros k1 v1 [?|E]%elem_of_app; [eauto|].
      apply list_elem_of_singleton in E. naive_solver.
    - intros k1 v1 [?|E]%elem_of_app; [eauto|].
      apply list_elem_of_singleton in E. naive_solver. }
  assert (v ≠ VNone) as Hv by (by destruct v).
  destruct (str_contains "db" k) eqn:Hc.
  { unfold setitem_group. rewrite Hdb. eexists. split; [done|]. split_and!.
    - eexists. by simplify_map_eq.
    - exists fr. split; [by simplify_map_eq|].
      intros k1 v1 [?|E]%elem_of_app; [eauto|].
      apply list_elem_of_singleton in E. congruence.
    - intros k1 v1 [Hi|E]%elem_of_app ? ? ?.
      + destruct (Hkeep' _ _ Hi) as [? ?]; [done..|].
        rewrite lookup_insert_ne by done. eauto.
      + apply list_elem_of_singleton in E. congruence. }
  case_bool_decide as Hf.
  { unfold setitem_group. rewrite Hfr. eexists. split; [done|]. split_and!.
    - exists db. by simplify_map_eq.
    - eexists. split; [by simplify_map_eq|].
      intros k1 v1 [Hi|E]%elem_of_app ? ? ?.
      + rewrite lookup_insert_ne; [eauto|]. intros <-. by eapply Hk.
      + apply list_elem_of_singleton in E. injection E as -> ->.
        by rewrite lookup_insert_eq.
    - intros k1 v1 [Hi|E]%elem_of_app ? ? ?.
      + destruct (Hkeep' _ _ Hi) as [? ?]; [done..|].
        rewrite lookup_insert_ne by done. eauto.
      + apply list_elem_of_singleton in E. congruence. }
  destruct (Hkeep k v) as [Hk1 Hk2]; [set_solver|done..|].
  eexists. split; [done|]. split_and!.
  - exists db. by simplify_map_eq.
  - exists fr. split; [by simplify_map_eq|].
    intros k1 v1 [?|E]%elem_of_app; [eauto|].
    apply list_elem_of_singleton in E. congruence.
  - intros k1 v1 [Hi|E]%elem_of_app ? ? ?.
    + rewrite lookup_insert_ne; [eauto|]. intros <-. by eapply Hk.
    + apply list_elem_of_singleton in E. injection E as -> ->.
      by rewrite lookup_insert_eq.
Qed.

Lemma move_args_placed items :
  NoDup items.*1 → keeps_groups items →
  ∃ ret, move_args ret0 items = Ok ret ∧ placed items ret.
Proof.
  induction items as [|[k v] items IH] using rev_ind; intros Hnd Hkeep.
  - exists ret0. split; [done|apply placed_nil].
  - destruct IH as (ret & Hrun & Hp).
    + rewrite fmap_app, NoDup_app in Hnd. tauto.
    + intros k1 v1 Hin. apply Hkeep. set_solver.
    + destruct (placed_snoc _ _ _ _ Hnd Hkeep Hp) as (ret' & Hstep & Hp').
      exists ret'. split; [|done].
      rewrite move_args_app, Hrun. cbn [move_args]. by rewrite Hstep.
Qed.

(** X1: in the loop of [parse_args] over an option table with distinct
    keys that leaves the groups in place, an option whose value is not
    [None] and whose name does not contain [db] is stored with its own
    value under its own name: in the [fractal] group when it is a field of
    the server settings, at the top level of the result otherwise. *)
Theorem parse_args_places_other_options items :
  NoDup items.*1 → keeps_groups items →
  ∃ ret fr,
    move_args ret0 items = Ok ret
    ∧ ret !! "fractal" = Some (Group fr)
    ∧ (∀ k v, (k, v) ∈ items → v ≠ VNone → str_contains "db" k = false →
         (k ∈ server_field_names → fr !! k = Some v)
         ∧ (k ∉ server_field_names → ret !! k = Some (Scalar v))).
Proof.
  intros Hnd Hkeep.
  destruct (move_args_placed items Hnd Hkeep)
    as (ret & Hrun & _ & (fr & Hfr & Hin) & Htop).
  exists ret, fr. split_and!; [done..|]. intros k v ? ? ?. split; eauto.
Qed.

(** X2: the loop of [parse_args] invents nothing. Every entry of the
    database group is the value, not [None], of an option with [db] in its
    name, under the name of the option with [db_] removed; every entry of
    the [fractal] group and every scalar at the top level is an option
    without [db] in its name, under its own name; the only dictionaries at
    the top level are the two groups. *)
Theorem parse_args_invents_nothing items :
  NoDup items.*1 → keeps_groups items →
  ∃ ret db fr,
    move_args ret0 items = Ok ret
    ∧ ret !! "database" = Some (Group db)
    ∧ ret !! "fractal" = Some (Group fr)
    ∧ (∀ n v, db !! n = Some v →
         v ≠ VNone
         ∧ ∃ k, (k, v) ∈ items ∧ str_contains "db" k = true
                ∧ n = str_replace "db_" "" k)
    ∧ (∀ n v, fr !! n = Some v →
         v ≠ VNone ∧ (n, v) ∈ items ∧ str_contains "db" n = false)
    ∧ (∀ n e, ret !! n = Some e →
         n = "database" ∨ n = "fractal"
         ∨ ∃ v, e = Scalar v ∧ v ≠ VNone ∧ (n, v) ∈ items
                ∧ str_contains "db" n = false).
Proof.
  intros Hnd Hkeep.
  destruct (move_args_routed items Hnd Hkeep)
    as (ret & db & fr & Hrun & Hdb & Hfr & Hgr & _ & _ & Hdbo & Hfro & Htop).
  exists ret, db, fr. split_and!; [done..| | |].
  - intros n v E. by apply Hdbo.
  - intros n v E. by apply Hfro.
  - intros n [v|d] E.
    + right. right. exists v. split; [done|]. by apply Htop.
    + destruct (Hgr _ _ E); auto.
Qed.

(** X3: without a sub-command, [parse_args] returns nothing: when the
    table holds [None] for [cmd], it prints the help on the error stream
    and exits with status 1, after the loop has run. *)
Theorem parse_args_without_subcommand w :
  NoDup (argv_vars w).*1 → keeps_groups (argv_vars w) →
  getitem (argv_vars w) "cmd" = Ok VNone →
  parse_args w = (Halt (SysExit 1), extend [EPrintHelp] w)
  ∧ exit_status (parse_args w).1 = Some 1%Z.
Proof.
  intros Hnd Hkeep Hcmd.
  destruct (move_args_routed _ Hnd Hkeep) as (ret & db & fr & Hrun & _).
  assert (parse_args w = (Halt (SysExit 1), extend [EPrintHelp] w)) as E.
  { unfold parse_args. run. by rewrite Hrun, Hcmd. }
  by rewrite E.
Qed.

(** ** [main] *)

(** X6: with the options taken from the command line, [main] first
    prints the whole dictionary of [parse_args], and then goes on as if it
    had been passed in; a password given as [--db-password] stands in the
    database group of what is printed. *)
Theorem main_echoes_command_line_password G w c s :
  NoDup (argv_vars w).*1 → keeps_groups (argv_vars w) →
  getitem (argv_vars w) "cmd" = Ok c → c ≠ VNone →
  ("db_password", VStr s) ∈ argv_vars w →
  (∀ k v, (k, v) ∈ argv_vars w → v ≠ VNone → str_contains "db" k = true →
          str_replace "db_" "" k = "password" → k = "db_password") →
  ∃ a db,
    main G None w = main G (Some a) (extend [EPrint (Repr a)] w)
    ∧ a !! "database" = Some (Group db)
    ∧ db !! "password" = Some (VStr s).
Proof.
  intros Hnd Hkeep Hcmd Hc Hin Huniq.
  destruct (move_args_routed _ Hnd Hkeep)
    as (a & db & fr & Hrun & Hdb & _ & _ & _ & Hval & _).
  exists a, db. split_and!; [|done|].
  - apply main_from_command_line. unfold parse_args. run.
    rewrite Hrun, Hcmd. by destruct c.
  - apply (Hval "db_password" (VStr s)); [done..|].
    intros k' v' ? ? ? E. by eapply Huniq.
Qed.

(** X7: whatever the sub-command, if it is not [init] then [main]
    leaves the directories, the files and the pending input as they are,
    and all it records are prints. *)
Theorem other_commands_leave_file_system G args cmd w r w' :
  args !! "cmd" = Some cmd →
  eq_str cmd "init" = false →
  main G (Some args) w = (r, w') →
  dirs w' = dirs w ∧ files w' = files w ∧ stdin w' = stdin w
  ∧ ∃ later, trace w' = trace w ++ later ∧ Forall is_print later.
Proof.
  intros Hcmd Hinit. unfold main, dict_pop. run. rewrite Hcmd. simpl.
  destruct (FractalConfig_new (delete "cmd" args)) as [config|h] eqn:Hcfg; simpl.
  2:{ intros [= <- <-]. split_and!; [done..|]. exists []. by rewrite app_nil_r. }
  rewrite Hinit. simpl.
  destruct (exists_in w (base_path config)); simpl.
  2:{ intros [= <- <-]. split_and!; [done..|]. eexists. split; [reflexivity|].
      repeat constructor. by eexists. }
  destruct (exists_in w (config_file_path config)); simpl.
  2:{ intros [= <- <-]. split_and!; [done..|]. eexists. split; [reflexivity|].
      repeat constructor. by eexists. }
  destruct (merge_files config w) as [r1 w1] eqn:Hm.
  apply merge_files_world in Hm as Hw. subst w1.
  destruct r1 as [merged|h].
  2:{ intros [= <- <-]. split_and!; [done..|]. exists []. by rewrite app_nil_r. }
  destruct (eq_str cmd "config").
  - rewrite server_config_run. intros [= <- <-]. split_and!; [done..|].
    eexists. split; [reflexivity|]. repeat constructor; by eexists.
  - intros [= <- <-]. split_and!; [done..|]. exists []. by rewrite app_nil_r.
Qed.

(** Filling the defaults in twice changes nothing. *)
Lemma dict_refilled fc :
  dict (mkFractalConfig (Some (base_folder fc)) (Some (database fc))
                        (Some (fractal fc)))
  = dict fc.
Proof.
  unfold dict.
  change (base_folder (mkFractalConfig (Some (base_folder fc)) (Some (database fc))
                                       (Some (fractal fc))))
    with (base_folder fc).
  change (database (mkFractalConfig (Some (base_folder fc)) (Some (database fc))
                                    (Some (fractal fc))))
    with (database fc ∪ database_defaults).
  change (fractal (mkFractalConfig (Some (base_folder fc)) (Some (database fc))
                                   (Some (fractal fc))))
    with (fractal fc ∪ fractal_defaults).
  unfold database at 1, fractal at 1. by rewrite !union_defaults.
Qed.

(** X8: [config] shows the persisted record and nothing of the command
    line. With a record in place that the constructor accepts, and server
    options, if any, only for fields the record holds, [main] prints the
    heading and the dump of the record as the constructor has validated
    and converted it, with its defaults filled in; it returns normally and
    changes nothing else. *)
Theorem config_shows_persisted_record G args config w kw fc cli :
  args !! "cmd" = Some (Scalar (VStr "config")) →
  FractalConfig_new (delete "cmd" args) = Ok config →
  exists_in w (base_path config) = true →
  files w !! config_file_path config = Some (YamlDump kw) →
  FractalConfig_new kw = Ok fc →
  fractal_set config = Some cli →
  (∀ k, is_Some (cli !! k) → is_Some (fractal fc !! k)) →
  main G (Some args) w
  = (Ok tt, extend [EPrint (Lit ("Displaying QCFractal configuration:" +:+ nl));
                    EPrint (YamlDump (dict fc))] w).
Proof.
  intros Hcmd Hcfg Hbase Hfile Hfc Hcli Hsub.
  unfold main, dict_pop. run. rewrite Hcmd. run. rewrite Hcfg. simpl.
  rewrite Hbase. simpl. unfold exists_in. rewrite Hfile.
  rewrite (bool_decide_eq_true_2 _ (mk_is_Some _ _ eq_refl)), orb_true_r. simpl.
  rewrite (merge_files_result _ _ _ _ _ _ Hcfg Hfile Hfc Hcli).
  rewrite server_config_run, (union_absorbed _ _ Hsub).
  by rewrite dict_refilled.
Qed.


(** ** The ways [main] exits *)

Lemma merge_files_never_exits config w h w' :
  merge_files config w = (Halt h, w') → ∃ e, h = Raised e.
Proof.
  unfold merge_files, read_text, dict_pop. run.
  destruct (files w !! config_file_path config) as [t|]; [|intros [= <- _]; by eexists].
  destruct (yaml_load t) as [l|h1] eqn:E0; simpl.
  2:{ intros [= <- _]. revert E0. unfold yaml_load.
      repeat case_match; try done; intros [= <-]; by eexists. }
  destruct l as [|kw|]; simpl; try (intros [= <- _]; by eexists).
  destruct (FractalConfig_new kw) as [fc|h1] eqn:E1; simpl.
  2:{ intros [= <- _]. apply FractalConfig_new_halt in E1. by eexists. }
  destruct (dict_skip_defaults config !! "fractal") as [e1|]; [|intros [= <- _]; by eexists].
  destruct (dict fc !! "fractal") as [e2|]; [|intros [= <- _]; by eexists].
  simpl. destruct e1 as [?|g1], e2 as [?|g2]; simpl; try (intros [= <- _]; by eexists).
  intros [= E2 _]. apply FractalConfig_new_halt in E2. by eexists.
Qed.

(** [server_init] leaves through [sys.exit] only to refuse. *)
Lemma server_init_exit G config w c w' :
  server_init G config w = (Halt (SysExit c), w') →
  c = 2%Z
  ∧ files w' = files w
  ∧ ∃ a, G !! "args" = Some a
         ∧ truthy (default (Scalar (VBool false)) (a !! "overwrite")) = false
         ∧ exists_in w (config_file_path config) = true.
Proof.
  unfold server_init. name_settle settle.
  assert (behaves (λ _, True) not_sys_exit settle) as Hsettle.
  { subst settle. rewrite setitem_password, bind_lift_ok.
    unfold print_str, print.
    repeat (apply behaves_bind;
            [first [by apply behaves_emit
                   |by apply behaves_mkdir
                   |by apply behaves_initialize_postgres
                   |by apply behaves_write_text]|intros _]).
    by apply behaves_emit. }
  unfold rmtree, shutdown_postgres. run.
  destruct (mkdir_exist_ok (base_path config) _) as [r1 w1] eqn:Emk.
  apply mkdir_exist_ok_run in Emk as (Hf & Ha & Hs & Ht & Hd1 & Hd2 & Hh & Hin).
  simpl in Hf, Ha, Hs, Ht, Hd1, Hd2, Hh, Hin.
  destruct r1 as [[]|h].
  2:{ intros [= -> <-]. by destruct (Hh _ eq_refl) as (_ & _ & ? & ?). }
  destruct (G !! "args") as [a|] eqn:HG; simpl; [|done].
  assert (exists_in w1 (config_file_path config) = exists_in w (config_file_path config))
    as ->.
  { apply exists_in_same; [done..|]. intros Hc. apply Hd2 in Hc.
    pose proof (path_join_ne (base_path config) config_file_name).
    unfold config_file_path in *. set_solver. }
  destruct (exists_in w (config_file_path config)) eqn:Hfile; simpl.
  2:{ destruct (settle w1) as [r2 w2] eqn:E.
      destruct (Hsettle _ _ _ E) as (_ & _ & Hn). intros [= -> <-].
      by destruct (Hn _ eq_refl c). }
  destruct (truthy _) eqn:Hover; simpl.
  - match goal with |- context [settle ?w2] => destruct (settle w2) as [r2 w2'] eqn:E end.
    destruct (Hsettle _ _ _ E) as (_ & _ & Hn). intros [= -> <-].
    by destruct (Hn _ eq_refl c).
  - intros [= <- <-]. split_and!; [done..|]. by exists a.
Qed.

(** The exits of [main] on given options. *)
Lemma main_exit_given G args w c w' :
  main G (Some args) w = (Halt (SysExit c), w') →
  files w' = files w
  ∧ ∃ cmd config,
      args !! "cmd" = Some cmd
      ∧ FractalConfig_new (delete "cmd" args) = Ok config
      ∧ (c = 1%Z ∧ eq_str cmd "init" = false
         ∧ (exists_in w (base_path config) = false
            ∨ exists_in w (config_file_path config) = false)
         ∨ c = 2%Z ∧ eq_str cmd "init" = true
           ∧ ∃ a, G !! "args" = Some a
                  ∧ truthy (default (Scalar (VBool false)) (a !! "overwrite")) = false
                  ∧ exists_in w (config_file_path config) = true).
Proof.
  unfold main, dict_pop. run.
  destruct (args !! "cmd") as [cmd|] eqn:Hcmd; simpl; [|done].
  destruct (FractalConfig_new (delete "cmd" args)) as [config|h] eqn:Hcfg; simpl.
  2:{ apply FractalConfig_new_halt in Hcfg. by subst h. }
  destruct (eq_str cmd "init") eqn:Hinit; simpl.
  - intros Hrun. destruct (server_init_exit _ _ _ _ _ Hrun) as (-> & Hf & Ha).
    split; [done|]. exists cmd, config. split_and!; [done..|]. right. by split_and!.
  - destruct (exists_in w (base_path config)) eqn:Hb; simpl.
    2:{ intros [= <- <-]. split; [done|]. exists cmd, config.
        split_and!; [done..|]. left. split_and!; [done..|]. by left. }
    destruct (exists_in w (config_file_path config)) eqn:Hf; simpl.
    2:{ intros [= <- <-]. split; [done|]. exists cmd, config.
        split_and!; [done..|]. left. split_and!; [done..|]. by right. }
    destruct (merge_files config w) as [r1 w1] eqn:Hm.
    destruct r1 as [merged|h].
    2:{ intros [= -> <-]. by destruct (merge_files_never_exits _ _ _ _ Hm). }
    destruct (eq_str cmd "config"); [by rewrite server_config_run|done].
Qed.


(** ** What [server_init] does to the files and shows of the password *)

Lemma server_init_frames G config :
  establishes
    (same_files (λ q, q ≠ config_file_path config
                      ∧ under (database_path config) q = false))
    (server_init G config).
Proof.
  unfold_init. set (R := same_files _).
  split_run R (same_files_refl (λ q, q ≠ config_file_path config
                      ∧ under (database_path config) q = false))
              (same_files_trans (λ q, q ≠ config_file_path config
                      ∧ under (database_path config) q = false)).
  all: intros w0 q [Hq1 Hq2]; simpl; try done.
  all: first [ by apply files_remove_tree_outside
             | by rewrite lookup_insert_ne
             | by apply files_postgres_outside ].
Qed.

(** X10: whatever its outcome, [server_init] leaves every file alone
    that is neither the configuration file nor below the data directory:
    such a path holds after the run what it held before. *)
Theorem server_init_leaves_other_files G config w r w' q :
  server_init G config w = (r, w') →
  q ≠ config_file_path config →
  under (database_path config) q = false →
  files w' !! q = files w !! q.
Proof.
  intros Hrun Hq1 Hq2.
  pose proof (server_init_frames G config w r w' Hrun) as Hsame.
  by apply Hsame.
Qed.

(** X11: [server_init] never prints the password. In every run, every
    dump of a configuration among the prints carries the stars as database
    password; and the pending input of the operator is never consumed. *)
Theorem server_init_prints_no_password G config w r w' :
  server_init G config w = (r, w') →
  (∃ later, trace w' = trace w ++ later ∧ Forall redacted_print later)
  ∧ stdin w' = stdin w.
Proof.
  intros Hrun.
  assert (behaves redacted_print (λ _, True) (server_init G config)) as Hb.
  { unfold server_init, mkdir_exist_ok, rmtree, shutdown_postgres,
      initialize_postgres, write_text, open_truncate, write_data,
      print_str, print, path_exists, raise, sys_exit.
    repeat first
      [ rewrite setitem_password, bind_lift_ok
      | apply (behaves_bind redacted_print (λ _, True)); [|intros ?]
      | apply (behaves_ret redacted_print (λ _, True))
      | apply (behaves_halt redacted_print (λ _, True)); [done]
      | apply (behaves_gets redacted_print (λ _, True))
      | apply (behaves_emit redacted_print (λ _, True))
      | apply (behaves_modify redacted_print (λ _, True));
          [intros ?; first [done|apply trace_remove_tree]
          |intros ?; first [done|apply stdin_remove_tree]]
      | match goal with
        | |- context [if ?b then _ else _] => destruct b
        | |- context [match ?o with Some _ => _ | None => _ end] => destruct o
        end ].
    all: intros d [= E]; try discriminate E.
    subst d. exists (<["password":=VStr stars]> (database config)).
    split; apply lookup_insert_eq. }
  destruct (Hb _ _ _ Hrun) as (Ht & Hs & _). done.
Qed.

(** ** [init], as the module is written *)

Lemma getitem_elem_of items k v : getitem items k = Ok v → (k, v) ∈ items.
Proof.
  induction items as [|[k' v'] items IH]; simpl; [done|].
  destruct (String.eqb k' k) eqn:E.
  - apply String.eqb_eq in E as ->. intros [= ->]. apply list_elem_of_here.
  - intros Hg. apply list_elem_of_further. by apply IH.
Qed.

(** X14: what [init] leaves, [config] cannot show. As the module is
    written, [init] ends with an exception before it has written anything;
    on a base directory without configuration file, [config] for the same
    base directory therefore still finds none: it prints the line about
    the missing file or directory and exits with status 1. *)
Theorem init_then_config_finds_nothing args shown w r1 w1 config :
  args !! "cmd" = Some (Scalar (VStr "init")) →
  main module_globals (Some args) w = (r1, w1) →
  shown !! "cmd" = Some (Scalar (VStr "config")) →
  FractalConfig_new (delete "cmd" shown) = Ok config →
  (∀ c, FractalConfig_new (delete "cmd" args) = Ok c → base_path c = base_path config) →
  exists_in w (config_file_path config) = false →
  (∃ e, r1 = Halt (Raised e))
  ∧ files w1 = files w
  ∧ ∃ missing,
      main module_globals (Some shown) w1
      = (Halt (SysExit 1),
         extend [EPrint (Lit ("Could not find configuration file" +:+ missing))] w1).
Proof.
  intros Hcmd Hrun Hshown Hcfg Hbase Hnone.
  destruct (main_init_as_written _ _ _ _ Hcmd Hrun) as (Hr & Hf & _ & _ & Hd & Hw).
  split; [done|]. split; [done|].
  assert (exists_in w1 (config_file_path config) = false) as Hnone1.
  { rewrite <- Hnone. apply exists_in_same; [done..|].
    destruct Hw as [->|(c & Hc & Hd2 & _)]; [done|].
    intros Hin. apply Hd2 in Hin. rewrite (Hbase _ Hc) in Hin.
    pose proof (path_join_ne (base_path config) config_file_name).
    unfold config_file_path in *. set_solver. }
  destruct (main_not_init_missing module_globals shown _ config w1 Hshown eq_refl Hcfg)
    as [[_ ->]|[_ ->]]; [by right|..].
  - by exists (" path: " +:+ base_path config).
  - by exists (": " +:+ config_file_path config).
Qed.

(** X21: from the command line [init] cannot pass line 143 when the
    declarations forbid undeclared keywords. The option [--overwrite] is a
    flag, so the table of [argparse] always holds it with a value that is
    not [None]; the loop leaves it at the top level, and the constructor
    refuses it. [main] has then printed the options and nothing else. *)
Theorem init_from_command_line_fails_validation G w c b :
  forbids_extra = true →
  NoDup (argv_vars w).*1 → keeps_groups (argv_vars w) →
  getitem (argv_vars w) "cmd" = Ok c → c ≠ VNone →
  ("overwrite", VBool b) ∈ argv_vars w →
  "cmd" ∉ server_field_names → "overwrite" ∉ server_field_names →
  ∃ a,
    main G None w = (Halt (Raised ValidationError), extend [EPrint (Repr a)] w)
    ∧ a !! "overwrite" = Some (Scalar (VBool b)).
Proof.
  intros Hforbid Hnd Hkeep Hcmd Hc Hover Hns1 Hns2.
  assert (("cmd", c) ∈ argv_vars w) as Hin by (by apply getitem_elem_of).
  destruct (move_args_placed _ Hnd Hkeep) as (a & Hrun & _ & _ & Htop).
  assert (a !! "cmd" = Some (Scalar c)) as Hacmd by (by apply Htop).
  assert (a !! "overwrite" = Some (Scalar (VBool b))) as Haover by (by apply Htop).
  exists a. split; [|done].
  rewrite (main_from_command_line G w a).
  2:{ unfold parse_args. run. rewrite Hrun, Hcmd. by destruct c. }
  unfold main, dict_pop. run. rewrite Hacmd. simpl.
  unfold FractalConfig_new. rewrite Hforbid.
  assert (has_extra (delete "cmd" a) = true) as ->; [|done].
  unfold has_extra. rewrite bool_decide_eq_false_2; [done|].
  intros Hsub. assert ("overwrite" ∈ dom (delete "cmd" a)) as Hd.
  { apply elem_of_dom. rewrite lookup_delete_ne by done. by eexists. }
  apply Hsub in Hd. unfold declared_keywords in Hd. set_solver.
Qed.

End Facts.


(** ** On the concrete installation *)

Lemma example_vars_distinct : NoDup example_vars.*1.
Proof. apply (bool_decide_unpack _). vm_compute. exact I. Qed.

Lemma password_vars_distinct : NoDup password_vars.*1.
Proof. apply (bool_decide_unpack _). vm_compute. exact I. Qed.

Lemma password_vars_keep_groups : keeps_groups (H := example_declared) password_vars.
Proof.
  intros k v Hin _ _ _. unfold password_vars in Hin.
  repeat (apply elem_of_cons in Hin as [[= -> ->]|Hin]; [by split|]).
  by apply elem_of_nil in Hin.
Qed.

Lemma bare_vars_keep_groups : keeps_groups (H := example_declared) [("cmd", VNone)].
Proof.
  intros k v Hin Hv. apply list_elem_of_singleton in Hin. congruence.
Qed.

(** [--db-database-name qca]: the key is [db_database_name], the entry
    of the group [database_name]. *)
Lemma db_option_round_trip_witness :
  argparse_dest (db_cli_name "database_name") = "db_database_name"
  ∧ move_arg (H := example_declared) ret0
      (argparse_dest (db_cli_name "database_name"), VStr "qca")
    = Ok (<["database" := Group (<["database_name" := VStr "qca"]> ∅)]> ret0).
Proof.
  apply (db_option_round_trip (H := example_declared) "database_name"
           (VStr "qca") ret0 ∅); [reflexivity|reflexivity|discriminate|reflexivity].
Defined.

(** [--logfile server.log] *)
Lemma server_option_round_trip_witness :
  argparse_dest (server_cli_name "logfile") = "logfile"
  ∧ move_arg (H := example_declared) ret0
      (argparse_dest (server_cli_name "logfile"), VStr "server.log")
    = Ok (<["fractal" := Group (<["logfile" := VStr "server.log"]> ∅)]> ret0).
Proof.
  apply (server_option_round_trip (H := example_declared) "logfile"
           (VStr "server.log") ret0 ∅);
    [|reflexivity|reflexivity|reflexivity|discriminate|reflexivity].
  apply (bool_decide_unpack _). vm_compute. exact I.
Defined.

(** On the example table [port] reaches the [fractal] group and
    [base_folder] the top level. *)
Lemma parse_args_places_other_options_witness :
  ∃ ret fr,
    move_args (H := example_declared) ret0 example_vars = Ok ret
    ∧ ret !! "fractal" = Some (Group fr)
    ∧ fr !! "port" = Some (VInt 7777)
    ∧ ret !! "base_folder" = Some (Scalar (VStr "/srv/qcf")).
Proof.
  destruct (parse_args_places_other_options (H := example_declared) example_vars
              example_vars_distinct example_vars_keep_groups)
    as (ret & fr & Hrun & Hfr & Hin).
  exists ret, fr. split; [exact Hrun|]. split; [exact Hfr|]. split.
  - apply (Hin "port" (VInt 7777)); [unfold example_vars; set_solver|done|reflexivity|].
    apply (bool_decide_unpack _). vm_compute. exact I.
  - apply (Hin "base_folder" (VStr "/srv/qcf"));
      [unfold example_vars; set_solver|done|reflexivity|].
    apply (bool_decide_unpack _). vm_compute. exact I.
Defined.

(** On the example table the database group has no entry [host]: the
    only option that could give one is [None]. *)
Lemma parse_args_invents_nothing_witness :
  ∃ ret db,
    move_args (H := example_declared) ret0 example_vars = Ok ret
    ∧ ret !! "database" = Some (Group db)
    ∧ db !! "host" = None.
Proof.
  destruct (parse_args_invents_nothing (H := example_declared) example_vars
              example_vars_distinct example_vars_keep_groups)
    as (ret & db & fr & Hrun & Hdb & _ & Hfrom & _).
  exists ret, db. split; [exact Hrun|]. split; [exact Hdb|].
  destruct (db !! "host") as [v|] eqn:E; [|reflexivity].
  destruct (Hfrom _ _ E) as (Hv & k & Hin & Hc & Hk).
  unfold example_vars in Hin.
  repeat (apply elem_of_cons in Hin as [[= -> ->]|Hin];
          [first [done|discriminate Hc|discriminate Hk]|]).
  by apply elem_of_nil in Hin.
Defined.

(** [qcfractal-server] alone *)
Lemma parse_args_without_subcommand_witness :
  parse_args (H := example_declared) bare_world
    = (Halt (SysExit 1), extend [EPrintHelp] bare_world)
  ∧ exit_status (parse_args (H := example_declared) bare_world).1 = Some 1%Z.
Proof.
  apply (parse_args_without_subcommand (H := example_declared) bare_world).
  - apply (bool_decide_unpack _). vm_compute. exact I.
  - exact bare_vars_keep_groups.
  - reflexivity.
Defined.

(** [qcfractal-server init --db-password hunter2]: the password is in
    what [main] prints first. *)
Lemma main_echoes_command_line_password_witness :
  ∃ a db,
    main (H := example_declared) module_globals None command_line_world
      = main (H := example_declared) module_globals (Some a)
             (extend [EPrint (Repr a)] command_line_world)
    ∧ a !! "database" = Some (Group db)
    ∧ db !! "password" = Some (VStr "hunter2").
Proof.
  apply (main_echoes_command_line_password (H := example_declared) module_globals
           command_line_world (VStr "init") "hunter2").
  - exact password_vars_distinct.
  - exact password_vars_keep_groups.
  - reflexivity.
  - discriminate.
  - simpl. unfold password_vars. set_solver.
  - intros k v Hin Hv Hc Hk. simpl in Hin. unfold password_vars in Hin.
    repeat (apply elem_of_cons in Hin as [[= -> ->]|Hin];
            [first [reflexivity|done|discriminate Hc|discriminate Hk]|]).
    by apply elem_of_nil in Hin.
Defined.

(** [start] on the initialised directory changes no file. *)
Lemma other_commands_leave_file_system_witness :
  let run := main (H := example_declared) module_globals (Some start_args)
                  example_world in
  dirs run.2 = dirs example_world ∧ files run.2 = files example_world
  ∧ stdin run.2 = stdin example_world
  ∧ ∃ later, trace run.2 = trace example_world ++ later ∧ Forall is_print later.
Proof.
  intros run.
  apply (other_commands_leave_file_system (H := example_declared) module_globals
           start_args (Scalar (VStr "start")) example_world run.1 run.2);
    [reflexivity|reflexivity|apply surjective_pairing].
Defined.

(** [config] on a directory whose record was written by hand with the
    port as a text of digits: the port is shown as the number. *)
Lemma config_shows_persisted_record_witness :
  main (H := example_declared) module_globals (Some config_args) typed_world
  = (Ok tt, extend [EPrint (Lit ("Displaying QCFractal configuration:" +:+ nl));
                    EPrint (YamlDump (dict (H := example_declared) typed_config))]
              typed_world)
  ∧ fractal (H := example_declared) typed_config !! "port" = Some (VInt 8080).
Proof.
  split; [|reflexivity].
  apply (config_shows_persisted_record (H := example_declared) module_globals
           config_args (mkFractalConfig (Some "/srv/qcf") (Some ∅) (Some ∅))
           typed_world typed_record typed_config ∅);
    [vm_compute; reflexivity..|].
  intros k [v Hk]. by rewrite lookup_empty in Hk.
Defined.


(** [init --overwrite] beside a file of notes: the notes stay. *)
Lemma server_init_leaves_other_files_witness :
  files (server_init (H := example_declared) {[ "args" := init_args true ]}
                     init_config shared_world).2 !! "/srv/qcf/notes.txt"
  = Some (Lit "keep").
Proof.
  rewrite (server_init_leaves_other_files (H := example_declared)
             {[ "args" := init_args true ]} init_config shared_world _ _
             "/srv/qcf/notes.txt" (surjective_pairing _)).
  - reflexivity.
  - apply (bool_decide_unpack _). vm_compute. exact I.
  - vm_compute. reflexivity.
Defined.

(** [init --overwrite] on the initialised directory: nothing printed
    shows a password, and the pending [no] is still there. *)
Lemma server_init_prints_no_password_witness :
  let run := server_init (H := example_declared) {[ "args" := init_args true ]}
                         init_config example_world in
  (∃ later, trace run.2 = trace example_world ++ later
            ∧ Forall redacted_print later)
  ∧ stdin run.2 = ["no"].
Proof.
  intros run.
  apply (server_init_prints_no_password (H := example_declared)
           {[ "args" := init_args true ]} init_config example_world run.1 run.2).
  apply surjective_pairing.
Defined.

(** [init] and then [config] on the fresh directory. *)
Lemma init_then_config_finds_nothing_witness :
  let run := main (H := example_declared) module_globals (Some init_keywords)
                  fresh_world in
  (∃ e, run.1 = Halt (Raised e))
  ∧ files run.2 = files fresh_world
  ∧ ∃ missing,
      main (H := example_declared) module_globals (Some config_args) run.2
      = (Halt (SysExit 1),
         extend [EPrint (Lit ("Could not find configuration file" +:+ missing))] run.2).
Proof.
  intros run.
  apply (init_then_config_finds_nothing (H := example_declared) init_keywords
           config_args fresh_world run.1 run.2
           (mkFractalConfig (Some "/srv/qcf") (Some ∅) (Some ∅))).
  - reflexivity.
  - apply surjective_pairing.
  - reflexivity.
  - vm_compute; reflexivity.
  - intros c Hc. vm_compute in Hc. injection Hc as <-. reflexivity.
  - vm_compute; reflexivity.
Defined.

(** [qcfractal-server init --db-password hunter2] *)
Lemma init_from_command_line_fails_validation_witness :
  ∃ a,
    main (H := example_declared) module_globals None command_line_world
    = (Halt (Raised ValidationError), extend [EPrint (Repr a)] command_line_world)
    ∧ a !! "overwrite" = Some (Scalar (VBool false)).
Proof.
  apply (init_from_command_line_fails_validation (H := example_declared)
           module_globals command_line_world (VStr "init") false).
  - reflexivity.
  - exact password_vars_distinct.
  - exact password_vars_keep_groups.
  - reflexivity.
  - discriminate.
  - simpl. unfold password_vars. set_solver.
  - apply (bool_decide_unpack _). vm_compute. exact I.
  - apply (bool_decide_unpack _). vm_compute. exact I.
Defined.

End CliExtra.

(** * More of the server module *)

Module DqmExtra.
Import Dqm DqmProofs.

Local Open Scope list_scope.
#[local] Set Warnings "-clear-no-such-hyp".

(** The four ways the constructor can end. *)
Lemma DQMServer_init_outcomes o w r w' :
  DQMServer_init o w = (r, w') →
  handlers w' = handlers w
  ∧ pending w' = pending w
  ∧ db_reachable w' = db_reachable w
  ∧ ((∃ name, logfile_name o = Some name)
     ∧ r = Halt (Raised (AttributeError "logfile")) ∧ w' = w
     ∨ logfile_name o = None ∧ db_reachable w = false
       ∧ (∃ e, r = Halt (Raised e))
       ∧ ports_in_use w' = ports_in_use w
       ∧ trace w' = trace w ++ [ELogInfo ("Logfile set to None" +:+ nl);
                                EDbConnect (db_ip o) (db_port o)]
     ∨ logfile_name o = None ∧ db_reachable w = true ∧ port o ∈ ports_in_use w
       ∧ r = Halt (Raised OSError)
       ∧ ports_in_use w' = ports_in_use w
       ∧ trace w' = trace w ++ [ELogInfo ("Logfile set to None" +:+ nl);
                                EDbConnect (db_ip o) (db_port o);
                                EListen (port o)]
     ∨ logfile_name o = None ∧ db_reachable w = true ∧ (port o ∉ ports_in_use w)
       ∧ r = Ok (mkDQMServer (port o))
       ∧ ports_in_use w' = {[port o]} ∪ ports_in_use w
       ∧ trace w' = trace w ++
           [ELogInfo ("Logfile set to None" +:+ nl);
            EDbConnect (db_ip o) (db_port o);
            EListen (port o);
            ELogInfo ("DQM Server successfully initialized at https://localhost:"
                      +:+ pretty (port o) +:+ "." +:+ nl)]).
Proof.
  unfold DQMServer_init, db_socket_factory, app_listen.
  destruct (logfile_name o) as [name|] eqn:Hname.
  { run. rewrite str_has_no_logfile. intros [= <- <-].
    split_and!; [done..|]. left. split_and!; [by eexists|done..]. }
  run. simpl. destruct (db_reachable w) eqn:Hdb; simpl.
  2:{ intros [= <- <-]. split_and!; [done..|]. right. left.
      split_and!; [done|done|by eexists|done|]. simpl. by rewrite <- !app_assoc. }
  case_bool_decide as Hport; simpl.
  - intros [= <- <-]. split_and!; [done..|]. right. right. left.
    split_and!; [done..|]. simpl. by rewrite <- !app_assoc.
  - intros [= <- <-]. split_and!; [done..|]. right. right. right.
    split_and!; [done..|]. simpl. by rewrite <- !app_assoc.
Qed.

(** What [start] leaves alone. *)
Lemma start_frames self w :
  handlers (start self w).2 = handlers w
  ∧ ports_in_use (start self w).2 = ports_in_use w
  ∧ db_reachable (start self w).2 = db_reachable w.
Proof.
  unfold start, try_except_interrupt, loop_start, stop. run. simpl.
  destruct (loop_run false (pending w)) as [[ev later] r].
  by destruct r as [[]|[c|[]|]].
Qed.

(** X15: for an explicit port number (1 to 65535), the constructor
    binds its port exactly when it returns. When it returns, no log file
    name was given, the database answered, the port was free before and is
    bound after, and the object carries it. When it raises, wherever that
    is, the set of bound ports is as before. It never consumes what is
    waiting for the loop. *)
Theorem DQMServer_init_binds_port_iff_returns o w r w' :
  0 < port o < 65536 →
  DQMServer_init o w = (r, w') →
  pending w' = pending w
  ∧ match r with
    | Ok server =>
        self_port server = port o
        ∧ logfile_name o = None
        ∧ db_reachable w = true
        ∧ (port o ∉ ports_in_use w)
        ∧ ports_in_use w' = {[port o]} ∪ ports_in_use w
    | Halt _ => ports_in_use w' = ports_in_use w
    end.
Proof.
  intros _ Hrun. destruct (DQMServer_init_outcomes _ _ _ _ Hrun)
    as (_ & Hp & _ & [(_ & -> & ->) | [(_ & _ & [e ->] & Hq & _)
        | [(_ & _ & _ & -> & Hq & _) | (Hn & Hdb & Hfree & -> & Hq & _)]]]).
  all: split; [exact Hp|]; try done.
Qed.

(** X16: whatever its arguments and however it ends, the constructor
    opens no log file and attaches no handler to the logger: with a name
    it stops before [logging.FileHandler] is reached, without one the
    branch is skipped. *)
Theorem DQMServer_init_never_opens_logfile o w r w' :
  DQMServer_init o w = (r, w') →
  handlers w' = handlers w
  ∧ ∃ later, trace w' = trace w ++ later ∧ ∀ path, EOpenLogfile path ∉ later.
Proof.
  intros Hrun. destruct (DQMServer_init_outcomes _ _ _ _ Hrun)
    as (Hh & _ & _ & [(_ & _ & ->) | [(_ & _ & _ & _ & Ht)
        | [(_ & _ & _ & _ & _ & Ht) | (_ & _ & _ & _ & _ & Ht)]]]).
  all: split; [done|].
  - exists []. split; [by rewrite app_nil_r|]. intros p Hin. by apply elem_of_nil in Hin.
  - eexists. split; [exact Ht|]. intros p. set_solver.
  - eexists. split; [exact Ht|]. intros p. set_solver.
  - eexists. split; [exact Ht|]. intros p. set_solver.
Qed.

(** X17: when the port is already bound, [self.app.listen] raises
    [OSError]; by then the constructor has logged the log file line and
    opened the database connection, in this order, and the line
    [successfully initialized] is never logged. *)
Theorem DQMServer_init_port_in_use o w :
  logfile_name o = None → db_reachable w = true → port o ∈ ports_in_use w →
  DQMServer_init o w
  = (Halt (Raised OSError),
     set_trace (λ t, t ++ [ELogInfo ("Logfile set to None" +:+ nl);
                           EDbConnect (db_ip o) (db_port o);
                           EListen (port o)]) w).
Proof.
  intros Hnone Hdb Hbusy. unfold DQMServer_init, db_socket_factory, app_listen.
  rewrite Hnone. run. simpl. rewrite Hdb. simpl.
  rewrite (bool_decide_eq_true_2 _ Hbusy). simpl.
  f_equal. unfold set_trace. simpl. f_equal. by rewrite <- !app_assoc.
Qed.




(** ** On concrete machines *)

(** On a machine where port 8888 is taken the constructor raises and
    binds nothing more. *)
Lemma DQMServer_init_binds_port_iff_returns_witness :
  let w := mkWorld true {[8888%Z]} [] [Callback] [] in
  pending (DQMServer_init default_options w).2 = [Callback]
  ∧ ports_in_use (DQMServer_init default_options w).2 = {[8888%Z]}.
Proof.
  intros w.
  assert ((DQMServer_init default_options w).1 = Halt (Raised OSError)) as E
    by (vm_compute; reflexivity).
  pose proof (DQMServer_init_binds_port_iff_returns default_options w
                (Halt (Raised OSError)) (DQMServer_init default_options w).2) as Hx.
  simpl in Hx. apply Hx; [lia|]. rewrite <- E. apply surjective_pairing.
Defined.

Lemma DQMServer_init_never_opens_logfile_witness :
  let with_name :=
    mkOptions 8888 "127.0.0.1" 27017 None None "mongo" "molssidb" (Some "server.log") in
  let run := DQMServer_init with_name interrupted_machine in
  handlers run.2 = []
  ∧ ∃ later, trace run.2 = [] ++ later ∧ ∀ path, EOpenLogfile path ∉ later.
Proof.
  intros with_name run.
  apply (DQMServer_init_never_opens_logfile with_name interrupted_machine run.1 run.2).
  apply surjective_pairing.
Defined.

Lemma DQMServer_init_port_in_use_witness :
  let w := mkWorld true {[8888%Z]} [] [] [] in
  DQMServer_init default_options w
  = (Halt (Raised OSError),
     set_trace (λ t, t ++ [ELogInfo ("Logfile set to None" +:+ nl);
                           EDbConnect "127.0.0.1" 27017;
                           EListen 8888]) w).
Proof.
  intros w. apply (DQMServer_init_port_in_use default_options w);
    [reflexivity|reflexivity|].
  apply (bool_decide_unpack _). vm_compute. exact I.
Defined.


(** The same with nothing after the last callback that is ready: the three
    callbacks around the call are served. *)
Example start_serves_what_is_ready :
  (start (mkDQMServer 8888) stopped_machine).1 = Ok tt
  ∧ trace (start (mkDQMServer 8888) stopped_machine).2 =
        [ELogInfo ("DQM Server successfully started. Starting IOLoop." +:+ nl);
         ELoopStart; ERunCallback; ERunCallback; ERunCallback;
         ELogInfo ("DQM Server stopping gracefully. Stopped IOLoop." +:+ nl)].
Proof. vm_compute. split; reflexivity. Qed.



End DqmExtra.
